(** * lidar2dems: the utilities of [l2d/utils.py], embedded and verified

    The development follows the source file top to bottom:
    - [PosixPath]: the two functions of Python's [os.path] the utilities
      rely on ([splitext], [join]), written after [posixpath.py];
    - the file utilities ([splitexts], [class_params], [class_suffix],
      [find_lasfiles], [find_classified_lasfile]);
    - [Numpy]: the handful of array operations used on raster bands;
    - the image utilities ([create_chm], [gap_fill]) and the GDAL wrapper
      [create_vrt], as programs of a small state-and-exception monad over
      the file system. *)

From Stdlib Require Import ZArith Ascii String DecimalString DecimalZ Sorted.
From stdpp Require Import gmap strings list sorting.

Local Open Scope string_scope.
Local Open Scope Z_scope.

(* ===================================================================== *)
(** ** Python values and exceptions *)
(* ===================================================================== *)

(** The exceptions the utilities can meet.  [Exception msg] is the one the
    module raises itself with [raise Exception(msg)]. *)
Inductive exn : Type :=
  | Exception (msg : string)
  | TypeError
  | KeyError
  | IndexError
  | ValueError
  | IOError (path : string).

(** Outcome of a call: a returned value or a raised exception. *)
Inductive result (A : Type) : Type :=
  | Return (a : A)
  | Raise (e : exn).
Arguments Return {A} a.
Arguments Raise {A} e.

Definition rbind {A B} (r : result A) (k : A -> result B) : result B :=
  match r with
  | Return a => k a
  | Raise e => Raise e
  end.

(** The Python values that reach [class_params] and [class_suffix]:
    [None], integers, strings, and lists of integers as the unhashable
    values a dictionary refuses as keys. *)
Inductive pyval : Type :=
  | PyNone
  | PyInt (z : Z)
  | PyStr (s : string)
  | PyList (l : list Z).

(** Decimal rendering of an integer, as [str] and ['%s'] print it. *)
Definition str_of_Z (z : Z) : string :=
  NilEmpty.string_of_int (Z.to_int z).

(* ===================================================================== *)
(** ** [os.path] (posixpath) *)
(* ===================================================================== *)

Module PosixPath.

(** [p.rfind(c)] for a one-character needle: the index of the last
    occurrence of [c] in [p], or [-1].  [i] is the index of the head. *)
Fixpoint rfind_from (i : Z) (c : ascii) (p : string) : Z :=
  match p with
  | EmptyString => -1
  | String a p' =>
      let r := rfind_from (i + 1) c p' in
      if 0 <=? r then r else if Ascii.eqb a c then i else -1
  end.

Definition rfind (c : ascii) (p : string) : Z := rfind_from 0 c p.

(** [p[:n]] and [p[n:]] for [0 <= n]. *)
Fixpoint str_take (n : nat) (p : string) : string :=
  match n, p with
  | S n', String a p' => String a (str_take n' p')
  | _, _ => EmptyString
  end.

Fixpoint str_drop (n : nat) (p : string) : string :=
  match n, p with
  | S n', String _ p' => str_drop n' p'
  | _, _ => p
  end.

(** The [while filenameIndex < dotIndex] loop of [genericpath._splitext]:
    [n] is the number of iterations left, [dotIndex - filenameIndex]. *)
Fixpoint skip_leading_dots (n : nat) (p : string) (filenameIndex : nat)
    (dotIndex : nat) : string * string :=
  match n with
  | O => (p, "")
  | S n' =>
      match String.get filenameIndex p with
      | Some c =>
          if Ascii.eqb c "." then
            skip_leading_dots n' p (S filenameIndex) dotIndex
          else (str_take dotIndex p, str_drop dotIndex p)
      | None => (p, "")
      end
  end.

(** [os.path.splitext(p)], that is [genericpath._splitext(p, '/', None, '.')]. *)
Definition splitext (p : string) : string * string :=
  let sepIndex := rfind "/" p in
  let dotIndex := rfind "." p in
  if sepIndex <? dotIndex then
    let filenameIndex := sepIndex + 1 in
    skip_leading_dots (Z.to_nat (dotIndex - filenameIndex)) p
      (Z.to_nat filenameIndex) (Z.to_nat dotIndex)
  else (p, "").

(** [s.startswith(c)], [s.endswith(c)] for a one-character [c]. *)
Definition startswith (c : ascii) (s : string) : bool :=
  match s with
  | String a _ => Ascii.eqb a c
  | EmptyString => false
  end.

Fixpoint endswith (c : ascii) (s : string) : bool :=
  match s with
  | EmptyString => false
  | String a EmptyString => Ascii.eqb a c
  | String _ s' => endswith c s'
  end.

(** [os.path.join(a, b)] for two components. *)
Definition join (a b : string) : string :=
  if startswith "/" b then b
  else if String.eqb a "" || endswith "/" a then a +:+ b
  else a +:+ "/" +:+ b.

End PosixPath.

(* ===================================================================== *)
(** ** File utilities *)
(* ===================================================================== *)

(** The product extensions recognised by [splitexts]. *)
Definition product_exts : list string :=
  [".den"; ".min"; ".max"; ".mean"; ".idw"; ".count"].

(** [x in l] on a list of strings. *)
Definition str_in (x : string) (l : list string) : bool :=
  existsb (String.eqb x) l.

(** [splitexts(filename)]: split off two extensions.  [len(parts) == 2]
    always holds of the pair [os.path.splitext] returns. *)
Definition splitexts (filename : string) : string * string :=
  let '(bname, ext) := PosixPath.splitext filename in
  let parts := PosixPath.splitext bname in
  if str_in (snd parts) product_exts then (fst parts, snd parts +:+ ext)
  else (bname, ext).

(** A vector feature as the utilities use it: [Basename()] and the
    attribute table read by [feature[key]]. *)
Record GeoFeature : Type := {
  Basename : string;
  attributes : gmap string pyval
}.

(** [feature[key]]; the argument may be [None], on which subscripting
    raises [TypeError].  A feature without the attribute raises as well;
    which exception it is makes no difference to the callers. *)
Definition feature_getitem (feature : option GeoFeature) (key : string)
    : result pyval :=
  match feature with
  | None => Raise TypeError
  | Some f =>
      match attributes f !! key with
      | Some v => Return v
      | None => Raise IndexError
      end
  end.

(** [d[key]] on a dictionary with string keys, kept as an association
    list in source order: an unhashable key raises [TypeError], an absent
    one [KeyError]. *)
Fixpoint dict_lookup {V} (d : list (string * V)) (k : string) : option V :=
  match d with
  | [] => None
  | (k', v) :: d' => if String.eqb k' k then Some v else dict_lookup d' k
  end.

Definition dict_getitem {V} (d : list (string * V)) (key : pyval) : result V :=
  match key with
  | PyList _ => Raise TypeError
  | PyStr k =>
      match dict_lookup d k with
      | Some v => Return v
      | None => Raise KeyError
      end
  | PyNone | PyInt _ => Raise KeyError
  end.

(** The table inside [class_params]. *)
Definition params : list (string * (pyval * pyval)) :=
  [ ("1", (PyInt 1, PyInt 3));     (* non-forest, flat *)
    ("2", (PyInt 1, PyInt 2));     (* forest, flat *)
    ("3", (PyInt 5, PyInt 2));     (* non-forest, complex *)
    ("4", (PyInt 10, PyInt 2)) ].  (* forest, complex *)

Definition is_none (v : pyval) : bool :=
  match v with PyNone => true | _ => false end.

(** [class_params(feature, slope=None, cellsize=None)].  The bare
    [except:] turns every exception of the lookup into the defaults. *)
Definition class_params (feature : option GeoFeature) (slope cellsize : pyval)
    : result (pyval * pyval) :=
  if negb (is_none slope) && negb (is_none cellsize) then
    Return (slope, cellsize)
  else
    match rbind (feature_getitem feature "class") (dict_getitem params) with
    | Return p => Return p
    | Raise _ =>
        let slope := if is_none slope then PyStr "1" else slope in
        let cellsize := if is_none cellsize then PyStr "3" else cellsize in
        Return (slope, cellsize)
    end.

(** [', '.join(l)] and friends. *)
Fixpoint str_join (sep : string) (l : list string) : string :=
  match l with
  | [] => ""
  | [x] => x
  | x :: l' => x +:+ sep +:+ str_join sep l'
  end.

(** ['%s' % v]. *)
Definition py_str (v : pyval) : string :=
  match v with
  | PyNone => "None"
  | PyInt z => str_of_Z z
  | PyStr s => s
  | PyList l => "[" +:+ str_join ", " (map str_of_Z l) +:+ "]"
  end.

(** [class_suffix(slope, cellsize, suffix='')]:
    ['%sl2d_s%sc%s.las' % (suffix, slope, cellsize)]. *)
Definition class_suffix (slope cellsize : pyval) (suffix : string) : string :=
  suffix +:+ "l2d_s" +:+ py_str slope +:+ "c" +:+ py_str cellsize +:+ ".las".

(* ===================================================================== *)
(** ** Arrays ([numpy]) *)
(* ===================================================================== *)

Module Numpy.

(** A two-dimensional array: its [shape] and its rows.  The shape is
    kept apart from the rows because an array with no row still has a
    number of columns. *)
Record ndarray (A : Type) : Type := {
  shape : nat * nat;
  rows : list (list A)
}.
Arguments shape {A} _.
Arguments rows {A} _.

(** Every array numpy builds satisfies this. *)
Definition wf {A} (a : ndarray A) : Prop :=
  length (rows a) = fst (shape a) /\
  Forall (fun r => length r = snd (shape a)) (rows a).

(** [a[i, j]]. *)
Definition cell {A} (a : ndarray A) (i j : nat) : option A :=
  rows a !! i ≫= (.!! j).

(** [a[0:n, :]] and [a[:, 0:n]]. *)
Definition slice_rows {A} (n : nat) (a : ndarray A) : ndarray A :=
  {| shape := (Nat.min n (fst (shape a)), snd (shape a));
     rows := take n (rows a) |}.

Definition slice_cols {A} (n : nat) (a : ndarray A) : ndarray A :=
  {| shape := (fst (shape a), Nat.min n (snd (shape a)));
     rows := fmap (M := list) (take n) (rows a) |}.

Definition shape_eqb (s t : nat * nat) : bool :=
  Nat.eqb (fst s) (fst t) && Nat.eqb (snd s) (snd t).

(** Elementwise [f a b] on arrays of one shape.  On two shapes numpy
    broadcasts or raises [ValueError]; that case is unreachable from
    the utilities and is modelled as the error. *)
Definition elementwise {A B C} (f : A -> B -> C) (a : ndarray A) (b : ndarray B)
    : result (ndarray C) :=
  if shape_eqb (shape a) (shape b) then
    Return {| shape := shape a;
              rows := zip_with (zip_with f) (rows a) (rows b) |}
  else Raise ValueError.

(** Elementwise [f a]: the comparisons of an array with a scalar. *)
Definition map_cells {A B} (f : A -> B) (a : ndarray A) : ndarray B :=
  {| shape := shape a; rows := fmap (M := list) (fmap (M := list) f) (rows a) |}.

(** [numpy.where(mask)]: the indices of the true cells, in row-major
    order.  [i] and [j] count the rows and columns passed. *)
Fixpoint row_where (i j : nat) (row : list bool) : list (nat * nat) :=
  match row with
  | [] => []
  | b :: row' =>
      if b then (i, j) :: row_where i (S j) row' else row_where i (S j) row'
  end.

Fixpoint where_from (i : nat) (mask : list (list bool)) : list (nat * nat) :=
  match mask with
  | [] => []
  | row :: mask' => (row_where i 0 row ++ where_from (S i) mask')%list
  end.

Definition numpy_where (mask : ndarray bool) : list (nat * nat) :=
  where_from 0 (rows mask).

(** [a[i, j] = v]; an index out of range raises [IndexError]. *)
Definition set_cell {A} (a : ndarray A) (ij : nat * nat) (v : A)
    : result (ndarray A) :=
  match cell a (fst ij) (snd ij) with
  | Some _ =>
      Return {| shape := shape a;
                rows := alter (fun r => <[snd ij := v]> r) (fst ij) (rows a) |}
  | None => Raise IndexError
  end.

(** [a[locs] = v] for a scalar [v]. *)
Fixpoint setitem_scalar {A} (a : ndarray A) (locs : list (nat * nat)) (v : A)
    : result (ndarray A) :=
  match locs with
  | [] => Return a
  | ij :: locs' => rbind (set_cell a ij v) (fun a' => setitem_scalar a' locs' v)
  end.

(** [a[mask] = v] for a boolean mask, which must have the shape of [a]. *)
Definition setitem_mask {A} (a : ndarray A) (mask : ndarray bool) (v : A)
    : result (ndarray A) :=
  if shape_eqb (shape a) (shape mask) then setitem_scalar a (numpy_where mask) v
  else Raise IndexError.

(** [a[locs]]: the values at the listed cells, in order. *)
Fixpoint getitem {A} (a : ndarray A) (locs : list (nat * nat))
    : result (list A) :=
  match locs with
  | [] => Return []
  | ij :: locs' =>
      match cell a (fst ij) (snd ij) with
      | Some v => rbind (getitem a locs') (fun vs => Return (v :: vs))
      | None => Raise IndexError
      end
  end.

(** [a[locs] = vals] with one value per cell. *)
Fixpoint assign {A} (a : ndarray A) (locs : list (nat * nat)) (vals : list A)
    : result (ndarray A) :=
  match locs, vals with
  | [], _ => Return a
  | ij :: locs', v :: vals' =>
      rbind (set_cell a ij v) (fun a' => assign a' locs' vals')
  | _ :: _, [] => Raise ValueError
  end.

(** [a[locs] = vals]: a sequence of one value is broadcast, otherwise
    the lengths must agree ([ValueError]). *)
Definition setitem {A} (a : ndarray A) (locs : list (nat * nat))
    (vals : list A) : result (ndarray A) :=
  match vals with
  | [v] => setitem_scalar a locs v
  | _ => if Nat.eqb (length vals) (length locs) then assign a locs vals
         else Raise ValueError
  end.

End Numpy.

(* ===================================================================== *)
(** ** Rasters, the file system and the external tools *)
(* ===================================================================== *)

(** Band values: the difference [a - b] and the comparison [a == b] of
    the band's data type.  Nothing is assumed of them, so the results
    hold of integer and of floating-point bands alike (where a NaN is not
    equal to itself). *)
Class Pixel (pix : Type) : Type := {
  psub : pix -> pix -> pix;
  peqb : pix -> pix -> bool
}.

(** A single-band image as the utilities see it through [gippy]: the
    nodata value of its band and the array of the band, that is what
    [Read()] returns.  The shape of the band is the extent of the image;
    an image created from a template has the template's extent (see
    [GeoImageOut]).  Georeferencing is gippy's business and is not
    modelled. *)
Record raster (pix : Type) : Type := {
  NoDataValue : pix;
  band : Numpy.ndarray pix
}.
Arguments NoDataValue {pix} _.
Arguments band {pix} _.

(** What lies outside the module: the directory listing behind
    [glob.glob], the two functions imported from [l2d.geo], scipy's
    [griddata], gippy's [CookieCutter] and the effect on the raster files
    of a command line given to [os.system]. *)
Class External (pix : Type) : Type := {
  glob : string -> list string;
  check_overlap : list string -> GeoFeature -> result (list string);
  (** the bounds of the site, each already rendered by [str] *)
  get_vector_bounds : list (option GeoFeature) -> result (list string);
  (** [griddata(points, values, xi, method)] *)
  griddata : list (nat * nat) -> list pix -> list (nat * nat) -> string
             -> result (list pix);
  CookieCutter : raster pix -> GeoFeature -> result (raster pix);
  shell : string -> gmap string (raster pix) -> gmap string (raster pix)
}.

(** The state the image utilities act on: the raster files by path, the
    paths opened for reading so far and the command lines run so far
    (both latest first). *)
Record World (pix : Type) : Type := {
  files : gmap string (raster pix);
  opened : list string;
  commands : list string
}.
Arguments files {pix} _.
Arguments opened {pix} _.
Arguments commands {pix} _.

(** Programs over the world that return or raise. *)
Definition M (pix A : Type) : Type := World pix -> result A * World pix.

Global Instance M_ret {pix} : MRet (M pix) :=
  fun A a w => (Return a, w).

Global Instance M_bind {pix} : MBind (M pix) :=
  fun A B k m w =>
    match m w with
    | (Return a, w') => k a w'
    | (Raise e, w') => (Raise e, w')
    end.

Definition raise {pix A} (e : exn) : M pix A := fun w => (Raise e, w).

Definition lift {pix A} (r : result A) : M pix A := fun w => (r, w).

(** An image opened for writing by [gippy.GeoImage(filename, template)]:
    the name it was created under, which [Filename()] returns, the
    extent it takes from its template, and the nodata value of its
    band. *)
Record GeoImageOut (pix : Type) : Type := {
  Filename : string;
  extent : nat * nat;
  out_nodata : pix
}.
Arguments Filename {pix} _.
Arguments extent {pix} _.
Arguments out_nodata {pix} _.

(** What gippy stores when [Write(arr)] is given an array that has not
    the extent of the image: the band keeps the extent the image was
    created with, and its content is gippy's business. *)
Class Gippy (pix : Type) : Type := {
  band_store : nat * nat -> Numpy.ndarray pix -> Numpy.ndarray pix;
  band_store_shape :
    forall ext arr, Numpy.shape (band_store ext arr) = ext
}.

(** Python's [sorted] on a list of strings: byte-wise lexical order. *)
Fixpoint insert_sorted (x : string) (l : list string) : list string :=
  match l with
  | [] => [x]
  | y :: l' => if String.leb x y then x :: l else y :: insert_sorted x l'
  end.

Definition sorted (l : list string) : list string :=
  foldr insert_sorted [] l.

Section Utils.
Context {pix : Type} {P : Pixel pix} {E : External pix} {G : Gippy pix}.

(** *** File discovery *)

(** [find_lasfiles(lasdir='', site=None, checkoverlap=False)]. *)
Definition find_lasfiles (lasdir : string) (site : option GeoFeature)
    (checkoverlap : bool) : result (list string) :=
  let filenames := glob (PosixPath.join lasdir "*.las") in
  rbind (match site with
         | Some s => if checkoverlap then check_overlap filenames s
                     else Return filenames
         | None => Return filenames
         end)
    (fun filenames =>
       if Nat.eqb (length filenames) 0 then
         Raise (Exception "No LAS files found")
       else Return filenames).

(** [find_classified_lasfile(lasdir='', site=None, params=('1', '3'))]. *)
Definition find_classified_lasfile (lasdir : string)
    (site : option GeoFeature) (params : pyval * pyval)
    : result (list string) :=
  let bname := match site with
               | None => ""
               | Some s => Basename s +:+ "_"
               end in
  let '(slope, cellsize) := params in
  let pattern := bname +:+ class_suffix slope cellsize "" in
  let filenames := glob (PosixPath.join lasdir pattern) in
  if Nat.eqb (length filenames) 0 then
    Raise (Exception "No classified LAS files found")
  else Return filenames.

(** *** gippy and [os] primitives *)

(** [gippy.GeoImage(filename)]: open an existing image. *)
Definition GeoImage (filename : string) : M pix (raster pix) :=
  fun w =>
    match files w !! filename with
    | Some r =>
        (Return r, {| files := files w;
                      opened := filename :: opened w;
                      commands := commands w |})
    | None => (Raise (IOError filename), w)
    end.

(** [gippy.GeoImages(filenames)]: open them all, in order. *)
Fixpoint GeoImages (filenames : list string) : M pix (list (raster pix)) :=
  match filenames with
  | [] => mret []
  | f :: fs => img ← GeoImage f; imgs ← GeoImages fs; mret (img :: imgs)
  end.

(** The file [fout] after its band was written: it holds the raster
    [r].  In [gap_fill] the array written is the template's own array
    updated in place, so it has the extent of the image; [create_chm]
    goes through [WriteBand], which accounts for the extent. *)
Definition Write (fout : string) (r : raster pix) : M pix unit :=
  fun w =>
    (Return tt, {| files := <[fout := r]> (files w);
                   opened := opened w;
                   commands := commands w |}).

Definition os_path_exists (path : string) : M pix bool :=
  fun w => (Return (bool_decide (is_Some (files w !! path))), w).

Definition os_remove (path : string) : M pix unit :=
  fun w =>
    match files w !! path with
    | Some _ =>
        (Return tt, {| files := delete path (files w);
                       opened := opened w;
                       commands := commands w |})
    | None => (Raise (IOError path), w)
    end.

Definition os_rename (src dst : string) : M pix unit :=
  fun w =>
    match files w !! src with
    | Some r =>
        (Return tt, {| files := <[dst := r]> (delete src (files w));
                       opened := opened w;
                       commands := commands w |})
    | None => (Raise (IOError src), w)
    end.

(** [os.system(cmd)]; the exit status is dropped by every caller. *)
Definition os_system (cmd : string) : M pix unit :=
  fun w =>
    (Return tt, {| files := shell cmd (files w);
                   opened := opened w;
                   commands := cmd :: commands w |}).

(** *** Image processing utilities *)

(** "ensure same size arrays, clip to smallest": the [if s1 != s2]
    block of [create_chm], returning [(dsm_arr, dtm_arr)]. *)
Definition clip_to_smallest (dsm_arr dtm_arr : Numpy.ndarray pix)
    : Numpy.ndarray pix * Numpy.ndarray pix :=
  let s1 := Numpy.shape dsm_arr in
  let s2 := Numpy.shape dtm_arr in
  if negb (Numpy.shape_eqb s1 s2) then
    let '(dsm_arr, dtm_arr) :=
      if Nat.ltb (fst s2) (fst s1) then
        (Numpy.slice_rows (fst s2) dsm_arr, dtm_arr)
      else if Nat.ltb (fst s1) (fst s2) then
        (dsm_arr, Numpy.slice_rows (fst s1) dtm_arr)
      else (dsm_arr, dtm_arr) in
    if Nat.ltb (snd s2) (snd s1) then
      (Numpy.slice_cols (snd s2) dsm_arr, dtm_arr)
    else if Nat.ltb (snd s1) (snd s2) then
      (dsm_arr, Numpy.slice_cols (snd s1) dtm_arr)
    else (dsm_arr, dtm_arr)
  else (dsm_arr, dtm_arr).

(** The array [create_chm] writes, from the two images. *)
Definition chm_array (dtm_img dsm_img : raster pix)
    : result (Numpy.ndarray pix) :=
  let dtm_nodata := NoDataValue dtm_img in
  let dsm_nodata := NoDataValue dsm_img in
  let nodata := dtm_nodata in
  let dsm_arr := band dsm_img in
  let dtm_arr := band dtm_img in
  let '(dsm_arr, dtm_arr) := clip_to_smallest dsm_arr dtm_arr in
  rbind (Numpy.elementwise psub dsm_arr dtm_arr) (fun arr =>
  (* set to nodata if no ground pixel *)
  rbind (Numpy.setitem_mask arr
           (Numpy.map_cells (fun x => peqb x dtm_nodata) dtm_arr) nodata)
    (fun arr =>
  (* set to nodata if no surface pixel *)
  let locs :=
    Numpy.numpy_where (Numpy.map_cells (fun x => peqb x dsm_nodata) dsm_arr) in
  Numpy.setitem_scalar arr locs nodata)).

(** [gippy.GeoImage(filename, template)]: a new image with the extent
    and the nodata value of the template. *)
Definition GeoImage_like (filename : string) (template : raster pix)
    : GeoImageOut pix :=
  {| Filename := filename;
     extent := Numpy.shape (band template);
     out_nodata := NoDataValue template |}.

(** [imgout.SetNoData(nodata)]. *)
Definition SetNoData (imgout : GeoImageOut pix) (nodata : pix)
    : GeoImageOut pix :=
  {| Filename := Filename imgout;
     extent := extent imgout;
     out_nodata := nodata |}.

(** The band of an image of extent [ext] after [Write(arr)]: [arr]
    itself when it has that extent. *)
Definition stored_band (ext : nat * nat) (arr : Numpy.ndarray pix)
    : Numpy.ndarray pix :=
  if Numpy.shape_eqb ext (Numpy.shape arr) then arr else band_store ext arr.

(** [imgout[0].Write(arr)]. *)
Definition WriteBand (imgout : GeoImageOut pix) (arr : Numpy.ndarray pix)
    : M pix unit :=
  Write (Filename imgout)
    {| NoDataValue := out_nodata imgout;
       band := stored_band (extent imgout) arr |}.

(** [create_chm(dtm, dsm, chm)].  The output image is created from the
    DTM before the arrays are read and cropped; the steps between its
    creation and [Write] are pure array arithmetic. *)
Definition create_chm (dtm dsm chm : string) : M pix string :=
  dtm_img ← GeoImage dtm;
  dsm_img ← GeoImage dsm;
  let imgout := GeoImage_like chm dtm_img in
  let imgout := SetNoData imgout (NoDataValue dtm_img) in
  arr ← lift (chm_array dtm_img dsm_img);
  _ ← WriteBand imgout arr;
  mret (Filename imgout).

(** [numpy.where(arr != nodata)] and [numpy.where(arr == nodata)]. *)
Definition goodlocs (nodata : pix) (arr : Numpy.ndarray pix)
    : list (nat * nat) :=
  Numpy.numpy_where (Numpy.map_cells (fun x => negb (peqb x nodata)) arr).

Definition badlocs (nodata : pix) (arr : Numpy.ndarray pix)
    : list (nat * nat) :=
  Numpy.numpy_where (Numpy.map_cells (fun x => peqb x nodata) arr).

(** The loop of [gap_fill] over [imgs[1:]]: the cells of [arr] still
    equal to [nodata] are read from the next image. *)
Fixpoint fill_from (nodata : pix) (arr : Numpy.ndarray pix)
    (imgs : list (raster pix)) : result (Numpy.ndarray pix) :=
  match imgs with
  | [] => Return arr
  | img :: imgs' =>
      let locs := badlocs nodata arr in
      rbind (Numpy.getitem (band img) locs) (fun vals =>
      rbind (Numpy.setitem arr locs vals) (fun arr' =>
      fill_from nodata arr' imgs'))
  end.

(** "interpolation at bad points". *)
Definition interpolate (nodata : pix) (arr : Numpy.ndarray pix)
    (interpolation : string) : result (Numpy.ndarray pix) :=
  let good := goodlocs nodata arr in
  let bad := badlocs nodata arr in
  rbind (Numpy.getitem arr good) (fun known =>
  rbind (griddata good known bad interpolation) (fun vals =>
  Numpy.setitem arr bad vals)).

(** The image [gap_fill] writes, from the opened images. *)
Definition gap_fill_image (imgs : list (raster pix)) (interpolation : string)
    : result (raster pix) :=
  match imgs with
  | [] => Raise IndexError
  | img0 :: rest =>
      let nodata := NoDataValue img0 in
      rbind (fill_from nodata (band img0) rest) (fun arr =>
      rbind (interpolate nodata arr interpolation) (fun arr =>
      Return {| NoDataValue := nodata; band := arr |}))
  end.

(** "align and clip": the [if site is not None] block of [gap_fill]. *)
Definition align_and_clip (fout : string) (site : GeoFeature) : M pix unit :=
  let parts := splitexts fout in
  let _fout := fst parts +:+ "_clip" +:+ snd parts in
  img ← GeoImage fout;
  clipped ← lift (CookieCutter img site);
  _ ← Write _fout clipped;
  ex ← os_path_exists fout;
  if ex : bool then _ ← os_remove fout; os_rename _fout fout
  else mret tt.

(** [gap_fill(filenames, fout, site=None, interpolation='nearest')]. *)
Definition gap_fill (filenames : list string) (fout : string)
    (site : option GeoFeature) (interpolation : string) : M pix string :=
  if Nat.eqb (length filenames) 0 then
    raise (Exception "No filenames provided!")
  else
    let filenames := sorted filenames in
    imgs ← GeoImages filenames;
    imgout ← lift (gap_fill_image imgs interpolation);
    _ ← Write fout imgout;
    _ ← match site with
        | Some s => align_and_clip fout s
        | None => mret tt
        end;
    mret fout.

(** *** GDAL utility wrappers *)

(** [create_vrt(filenames, fout, site=[None], overwrite=False,
    verbose=False)]. *)
Definition create_vrt (filenames : list string) (fout : string)
    (site : list (option GeoFeature)) (overwrite verbose : bool)
    : M pix string :=
  ex ← os_path_exists fout;
  if (ex : bool) && negb overwrite then mret fout
  else
    let cmd := ["gdalbuildvrt"] in
    let cmd := if negb verbose then (cmd ++ ["-q"])%list else cmd in
    cmd ← match site with
          | [] => raise IndexError
          | Some _ :: _ =>
              bounds ← lift (get_vector_bounds site);
              mret (cmd ++ ["-te " +:+ str_join " " bounds])%list
          | None :: _ => mret cmd
          end;
    let cmd := (cmd ++ [fout])%list in
    let cmd := (cmd ++ filenames)%list in
    _ ← os_system (str_join " " cmd);
    mret fout.

End Utils.

(* ===================================================================== *)
(** ** The remaining utilities *)
(* ===================================================================== *)

(** The table inside [dem_products]. *)
Definition products : list (string * list string) :=
  [ ("density", ["count"]);
    ("dsm", ["idw"]);
    ("dtm", ["idw"]) ].

(** [dem_products(demtype)]: [products[demtype]]. *)
Definition dem_products (demtype : pyval) : result (list string) :=
  dict_getitem products demtype.

Section Names.
(** [os.path.abspath], which depends on the working directory. *)
Variable abspath : string -> string.

(** [get_classification_filename(site, outdir='', slope=None,
    cellsize=None, suffix='')]. *)
Definition get_classification_filename (site : option GeoFeature)
    (outdir : string) (slope cellsize : pyval) (suffix : string)
    : result string :=
  let fout := match site with
              | None => ""
              | Some s => Basename s +:+ "_"
              end in
  rbind (class_params site slope cellsize) (fun sc =>
  let '(slope, cellsize) := sc in
  Return (PosixPath.join (abspath outdir)
            (fout +:+ class_suffix slope cellsize suffix))).

End Names.

Section Hillshade.
Context {pix : Type} {E : External pix}.

(** [create_hillshade(filename)]; what it prints is not modelled. *)
Definition create_hillshade (filename : string) : M pix string :=
  let fout := fst (PosixPath.splitext filename) +:+ "_hillshade.tif" in
  let cmd := "gdaldem hillshade " +:+ filename +:+ " " +:+ fout in
  _ ← os_system cmd;
  mret fout.

End Hillshade.

(* ===================================================================== *)
(** ** Vocabulary of the statements *)
(* ===================================================================== *)

(** [c in s] for a character, and "[s] consists of dots only". *)
Fixpoint str_mem (c : ascii) (s : string) : bool :=
  match s with
  | EmptyString => false
  | String a s' => Ascii.eqb a c || str_mem c s'
  end.

Fixpoint all_dots (s : string) : bool :=
  match s with
  | EmptyString => true
  | String a s' => Ascii.eqb a "." && all_dots s'
  end.

(** The name of the temporary file of the clip in [gap_fill]:
    [parts[0] + '_clip' + parts[1]]. *)
Definition clip_name (fout : string) : string :=
  fst (splitexts fout) +:+ "_clip" +:+ snd (splitexts fout).

(** The class codes of the table. *)
Definition class_codes : list pyval :=
  [PyStr "1"; PyStr "2"; PyStr "3"; PyStr "4"].

(** A cell is in range when the array has a value there. *)
Definition in_range {A} (a : Numpy.ndarray A) (ij : nat * nat) : Prop :=
  is_Some (Numpy.cell a (fst ij) (snd ij)).

(** The top-left [r] x [c] corner of an array: [a[0:r, 0:c]]. *)
Definition crop {A} (r c : nat) (a : Numpy.ndarray A) : Numpy.ndarray A :=
  Numpy.slice_cols c (Numpy.slice_rows r a).

(** The value [create_chm] gives a cell whose ground value is [x] and
    whose surface value is [y]. *)
Definition chm_cell {pix} {P : Pixel pix} (dtm_nodata dsm_nodata x y : pix)
    : pix :=
  if peqb x dtm_nodata || peqb y dsm_nodata then dtm_nodata else psub y x.

(** Byte-wise lexical order on file names. *)
Definition str_le (a b : string) : Prop := String.leb a b = true.

(** The first value of a list that is not [nodata], if any. *)
Fixpoint first_valid {pix} {P : Pixel pix} (nodata : pix) (vs : list pix)
    : option pix :=
  match vs with
  | [] => None
  | v :: vs' => if peqb v nodata then first_valid nodata vs' else Some v
  end.

(** One cell of the accumulator after the images holding [vs] there. *)
Definition fill_cell {pix} {P : Pixel pix} (nodata acc : pix) (vs : list pix)
    : pix :=
  fold_left (fun acc v => if peqb acc nodata then v else acc) vs acc.

Section Vocabulary.
Import Numpy.
Context {pix : Type} {P : Pixel pix} {E : External pix}.

(** The LAS files of [lasdir], after the optional overlap filter. *)
Definition las_matches (lasdir : string) (site : option GeoFeature)
    (checkoverlap : bool) : result (list string) :=
  let found := glob (PosixPath.join lasdir "*.las") in
  match checkoverlap, site with
  | true, Some s => check_overlap found s
  | _, _ => Return found
  end.

(** The files matching the classification-suffix pattern. *)
Definition classified_matches (lasdir : string) (site : option GeoFeature)
    (params : pyval * pyval) : list string :=
  glob (PosixPath.join lasdir
          (match site with None => "" | Some s => Basename s +:+ "_" end
           +:+ class_suffix (fst params) (snd params) "")).

(** The command line [create_vrt] assembles; [te] is the rendered
    [-te] option when the site has bounds. *)
Definition gdalbuildvrt_cmd (verbose : bool) (te : list string)
    (fout : string) (filenames : list string) : string :=
  str_join " "
    (["gdalbuildvrt"] ++ (if verbose then [] else ["-q"]) ++ te
     ++ [fout] ++ filenames)%list.

(** The world after [os.system(cmd)]. *)
Definition after_command (cmd : string) (w : World pix) : World pix :=
  {| files := shell cmd (files w);
     opened := opened w;
     commands := cmd :: commands w |}.

(** [griddata] returns [vals], one value per bad cell of [arr]. *)
Definition griddata_answers (nodata : pix) (arr : ndarray pix)
    (interpolation : string) (vals : list pix) : Prop :=
  exists known,
    getitem arr (goodlocs nodata arr) = Return known /\
    griddata (goodlocs nodata arr) known (badlocs nodata arr) interpolation
      = Return vals /\
    length vals = length (badlocs nodata arr).

(** The images and the accumulator have one shape. *)
Definition same_shape (arr : ndarray pix) (imgs : list (raster pix)) : Prop :=
  Forall (fun r => wf (band r) /\ shape (band r) = shape arr) imgs.

End Vocabulary.

(* ===================================================================== *)
(** ** A concrete world for the examples *)
(* ===================================================================== *)

Module Sample.

(** Integer bands. *)
Definition Z_pixel : Pixel Z := {| psub := Z.sub; peqb := Z.eqb |}.

(** Squared distance between two cells. *)
Definition dist2 (p q : nat * nat) : Z :=
  let dr := Z.of_nat (fst p) - Z.of_nat (fst q) in
  let dc := Z.of_nat (snd p) - Z.of_nat (snd q) in
  dr * dr + dc * dc.

(** The value of the known point closest to [q] (the first such one),
    starting from the candidate [best]. *)
Fixpoint closest (q : nat * nat) (best : (nat * nat) * Z)
    (known : list ((nat * nat) * Z)) : Z :=
  match known with
  | [] => snd best
  | k :: known' =>
      closest q (if dist2 (fst k) q <? dist2 (fst best) q then k else best)
        known'
  end.

(** Nearest-neighbour interpolation, whatever the method asked for. *)
Definition nearest (points : list (nat * nat)) (values : list Z)
    (xi : list (nat * nat)) (method : string) : result (list Z) :=
  match zip points values with
  | [] => match xi with [] => Return [] | _ => Raise ValueError end
  | k :: known => Return (map (fun q => closest q k known) xi)
  end.

(** A directory [tiles] with two LAS files and one classified file. *)
Definition listing (pattern : string) : list string :=
  if String.eqb pattern "tiles/*.las" then
    ["tiles/a.las"; "tiles/b.las"; "tiles/site_l2d_s1c3.las"]
  else if String.eqb pattern "tiles/site_l2d_s1c3.las" then
    ["tiles/site_l2d_s1c3.las"]
  else [].

Definition tools : External Z := {|
  glob := listing;
  check_overlap := fun filenames _ => Return filenames;
  get_vector_bounds := fun _ => Return ["0"; "0"; "30"; "20"];
  griddata := nearest;
  CookieCutter := fun img _ => Return img;
  shell := fun _ fs => fs
|}.

(** A band store that keeps the cells of the array that fall inside the
    image and fills the others with 0. *)
Definition pad_row (c : nat) (row : list Z) : list Z :=
  take c (row ++ replicate c 0)%list.

Definition pad (ext : nat * nat) (arr : Numpy.ndarray Z) : Numpy.ndarray Z :=
  {| Numpy.shape := ext;
     Numpy.rows :=
       take (fst ext)
         ((pad_row (snd ext) <$> Numpy.rows arr)
          ++ replicate (fst ext) (replicate (snd ext) 0))%list |}.

Global Instance gippy : Gippy Z := {|
  band_store := pad;
  band_store_shape := fun _ _ => eq_refl
|}.

Definition site : GeoFeature :=
  {| Basename := "site"; attributes := {[ "class" := PyStr "3" ]} |}.

Definition array (r c : nat) (l : list (list Z)) : Numpy.ndarray Z :=
  {| Numpy.shape := (r, c); Numpy.rows := l |}.

(** Three terrain rasters on a 2 x 3 grid with nodata [-9999], a surface
    raster on the same grid and one on a 3 x 2 grid, both with nodata
    [-1]. *)
Definition nd : Z := -9999.

Definition dtm_r1 : raster Z :=
  {| NoDataValue := nd; band := array 2 3 [[10; nd; 12]; [nd; nd; 15]] |}.
Definition dtm_r2 : raster Z :=
  {| NoDataValue := nd; band := array 2 3 [[20; 21; 22]; [nd; nd; 25]] |}.
Definition dtm_r3 : raster Z :=
  {| NoDataValue := nd; band := array 2 3 [[30; 31; 32]; [33; nd; 35]] |}.
Definition dsm_r1 : raster Z :=
  {| NoDataValue := -1; band := array 2 3 [[17; 18; -1]; [19; 20; 21]] |}.
Definition dsm_big : raster Z :=
  {| NoDataValue := -1;
     band := array 3 2 [[17; 18]; [-1; 20]; [21; 22]] |}.

Definition world : World Z := {|
  files := {[ "dtm_r1.idw.tif" := dtm_r1; "dtm_r2.idw.tif" := dtm_r2;
              "dtm_r3.idw.tif" := dtm_r3; "dsm_r1.idw.tif" := dsm_r1;
              "dsm_big.idw.tif" := dsm_big ]};
  opened := [];
  commands := []
|}.

End Sample.

Module SampleClip.

(** A cookie cutter that keeps the top-left 1 x 2 corner, and one that
    fails. *)
Definition clipping : External Z := {|
  glob := Sample.listing;
  check_overlap := fun filenames _ => Return filenames;
  get_vector_bounds := fun _ => Return ["0"; "0"; "30"; "20"];
  griddata := Sample.nearest;
  CookieCutter := fun img _ =>
    Return {| NoDataValue := NoDataValue img; band := crop 1 2 (band img) |};
  shell := fun _ fs => fs
|}.

Definition failing : External Z := {|
  glob := Sample.listing;
  check_overlap := fun filenames _ => Return filenames;
  get_vector_bounds := fun _ => Raise ValueError;
  griddata := Sample.nearest;
  CookieCutter := fun _ _ => Raise (Exception "site outside raster");
  shell := fun _ fs => fs
|}.

(** A terrain raster on a 1 x 2 grid. *)
Definition dtm_small : raster Z :=
  {| NoDataValue := Sample.nd; band := Sample.array 1 2 [[40; 41]] |}.

Definition world : World Z := {|
  files := {[ "dtm_r0.idw.tif" := dtm_small;
              "dtm_r1.idw.tif" := Sample.dtm_r1;
              "dtm_r2.idw.tif" := dtm_small;
              "dtm_clip.tif" := Sample.dsm_r1 ]};
  opened := [];
  commands := []
|}.

End SampleClip.

(* ===================================================================== *)
(** ** Properties of [os.path.splitext] and [splitexts] *)
(* ===================================================================== *)

Example splitexts_idw_tif :
  splitexts "out/dtm_r1.idw.tif" = ("out/dtm_r1", ".idw.tif").
Proof. reflexivity. Qed.

Example splitexts_plain_tif :
  splitexts "out/chm.tif" = ("out/chm", ".tif").
Proof. reflexivity. Qed.

Example splitexts_hidden :
  splitexts ".idw.tif" = (".idw", ".tif").
Proof. reflexivity. Qed.

Example splitexts_dir_dot :
  splitexts "run.idw/dtm" = ("run.idw/dtm", "").
Proof. reflexivity. Qed.

Lemma str_app_cons (a : ascii) (s t : string) :
  String a s +:+ t = String a (s +:+ t).
Proof. reflexivity. Qed.

Lemma str_take_drop (n : nat) (p : string) :
  PosixPath.str_take n p +:+ PosixPath.str_drop n p = p.
Proof.
  revert p. induction n as [|n IH]; intros [|a p]; simpl; try reflexivity.
  rewrite str_app_cons. f_equal. apply IH.
Qed.

Lemma str_app_nil_r (s : string) : s +:+ "" = s.
Proof. induction s; [reflexivity | rewrite str_app_cons; congruence]. Qed.

Lemma str_app_assoc (a b c : string) : a +:+ (b +:+ c) = (a +:+ b) +:+ c.
Proof.
  induction a; [reflexivity | rewrite !str_app_cons; congruence].
Qed.

Lemma skip_leading_dots_app (n : nat) (p : string) (i d : nat) :
  fst (PosixPath.skip_leading_dots n p i d)
    +:+ snd (PosixPath.skip_leading_dots n p i d) = p.
Proof.
  revert i. induction n as [|n IH]; intros i; simpl.
  - apply str_app_nil_r.
  - destruct (String.get i p) as [c|].
    + destruct (Ascii.eqb c "."); [apply IH | apply str_take_drop].
    + apply str_app_nil_r.
Qed.

Lemma splitext_app (p : string) :
  fst (PosixPath.splitext p) +:+ snd (PosixPath.splitext p) = p.
Proof.
  unfold PosixPath.splitext.
  destruct (_ <? _).
  - apply skip_leading_dots_app.
  - apply str_app_nil_r.
Qed.

(** C9. For every filename, the pair [(bname, ext)] that [splitexts]
    returns satisfies [bname + ext == filename], on either branch. *)
Theorem splitexts_roundtrip (filename : string) :
  fst (splitexts filename) +:+ snd (splitexts filename) = filename.
Proof.
  unfold splitexts.
  pose proof (splitext_app filename) as Hf.
  destruct (PosixPath.splitext filename) as [bname ext]; simpl in Hf.
  pose proof (splitext_app bname) as Hb.
  destruct (str_in _ _); simpl.
  - now rewrite str_app_assoc, Hb.
  - exact Hf.
Qed.

(** *** [splitext] on a name with a visible extension *)

Lemma rfind_from_absent (c : ascii) (s : string) (i : Z) :
  str_mem c s = false -> PosixPath.rfind_from i c s = -1.
Proof.
  revert i. induction s as [|a s IH]; intros i; simpl; [reflexivity|].
  intros [Ha Hs]%orb_false_elim. now rewrite (IH _ Hs), Ha.
Qed.

Lemma rfind_from_bounds (c : ascii) (s : string) (i : Z) :
  0 <= i ->
  PosixPath.rfind_from i c s = -1 \/
  i <= PosixPath.rfind_from i c s < i + Z.of_nat (String.length s).
Proof.
  revert i. induction s as [|a s IH]; intros i Hi; simpl; [now left|].
  destruct (IH (i + 1)) as [Hr|Hr]; [lia| |].
  - rewrite Hr. simpl. destruct (Ascii.eqb a c); [right; lia | now left].
  - destruct (Z.leb_spec 0 (PosixPath.rfind_from (i + 1) c s)); [right|]; lia.
Qed.

Lemma rfind_from_app (c : ascii) (a b : string) (i : Z) :
  0 <= i ->
  PosixPath.rfind_from i c (a +:+ b) =
    if 0 <=? PosixPath.rfind_from (i + Z.of_nat (String.length a)) c b
    then PosixPath.rfind_from (i + Z.of_nat (String.length a)) c b
    else PosixPath.rfind_from i c a.
Proof.
  revert i. induction a as [|h a IH]; intros i Hi.
  - change ("" +:+ b) with b. simpl. rewrite Z.add_0_r.
    destruct (Z.leb_spec 0 (PosixPath.rfind_from i c b)); [reflexivity|].
    destruct (rfind_from_bounds c b i Hi); lia.
  - assert (i + Z.of_nat (String.length (String h a))
            = i + 1 + Z.of_nat (String.length a)) as ->
      by (cbn [String.length]; lia).
    rewrite str_app_cons. cbn [PosixPath.rfind_from]. rewrite IH by lia.
    cbv zeta.
    destruct (0 <=? PosixPath.rfind_from (i + 1 + Z.of_nat (String.length a)) c b)
      eqn:Hb; [now rewrite Hb | reflexivity].
Qed.

Lemma rfind_from_head (c : ascii) (s : string) (i : Z) :
  0 <= i -> str_mem c s = false -> PosixPath.rfind_from i c (String c s) = i.
Proof.
  intros Hi Hs. simpl. rewrite (rfind_from_absent _ _ _ Hs). simpl.
  now rewrite Ascii.eqb_refl.
Qed.

Lemma str_get_is_Some (s : string) (k : nat) :
  (k < String.length s)%nat -> is_Some (String.get k s).
Proof.
  revert k. induction s as [|a s IH]; intros k; simpl; [lia|].
  destruct k as [|k]; [eauto|]. intros Hk. apply IH. lia.
Qed.

Lemma all_dots_false (s : string) :
  all_dots s = false ->
  exists k c, String.get k s = Some c /\ Ascii.eqb c "." = false.
Proof.
  induction s as [|a s IH]; simpl; [discriminate|].
  destruct (Ascii.eqb a ".") eqn:Ha; simpl.
  - intros (k & c & Hk & Hc)%IH. exists (S k), c. auto.
  - intros _. exists 0%nat, a. auto.
Qed.

Lemma str_length_app (a b : string) :
  String.length (a +:+ b) = (String.length a + String.length b)%nat.
Proof.
  induction a as [|h a IH]; [reflexivity|].
  rewrite str_app_cons. simpl. now rewrite IH.
Qed.

Lemma str_take_app (a b : string) :
  PosixPath.str_take (String.length a) (a +:+ b) = a.
Proof.
  induction a as [|h a IH]; [now destruct b|].
  rewrite str_app_cons. simpl. now rewrite IH.
Qed.

Lemma str_drop_app (a b : string) :
  PosixPath.str_drop (String.length a) (a +:+ b) = b.
Proof.
  induction a as [|h a IH]; [now destruct b|].
  rewrite str_app_cons. simpl. exact IH.
Qed.

(** The scan stops at the first character that is not a dot. *)
Lemma skip_leading_dots_stem (n : nat) (p : string) (d : nat) :
  forall i k c,
    (i <= k < i + n)%nat -> (i + n <= String.length p)%nat ->
    String.get k p = Some c -> Ascii.eqb c "." = false ->
    PosixPath.skip_leading_dots n p i d
      = (PosixPath.str_take d p, PosixPath.str_drop d p).
Proof.
  induction n as [|n IH]; intros i k c Hk Hlen Hget Hc; [lia|].
  simpl. destruct (str_get_is_Some p i) as [c0 Hc0]; [lia|]. rewrite Hc0.
  destruct (Ascii.eqb c0 ".") eqn:Hdot; [|reflexivity].
  apply (IH (S i) k c); [|lia|assumption|assumption].
  destruct (decide (k = i)) as [->|]; [congruence | lia].
Qed.

(** A name [dir + stem + '.' + x], where the stem has no slash and a
    character other than a dot, and [x] has neither dot nor slash, splits
    before that last dot. *)
Lemma splitext_visible_ext (dir stem x : string) :
  str_mem "/" stem = false -> all_dots stem = false ->
  str_mem "." x = false -> str_mem "/" x = false ->
  PosixPath.splitext (dir +:+ stem +:+ String "." x)
  = (dir +:+ stem, String "." x).
Proof.
  intros Hslash Hstem Hdotx Hslashx.
  rewrite str_app_assoc. set (b := dir +:+ stem).
  assert (String.length b = (String.length dir + String.length stem)%nat)
    as Hlenb by apply str_length_app.
  unfold PosixPath.splitext, PosixPath.rfind.
  assert (PosixPath.rfind_from 0 "." (b +:+ String "." x)
          = Z.of_nat (String.length b)) as ->.
  { rewrite rfind_from_app by lia.
    rewrite rfind_from_head by (assumption || lia).
    now rewrite (proj2 (Z.leb_le _ _)) by lia. }
  assert (PosixPath.rfind_from 0 "/" (b +:+ String "." x)
          = PosixPath.rfind_from 0 "/" dir) as ->.
  { rewrite rfind_from_app by lia.
    rewrite (rfind_from_absent "/" (String "." x)) by exact Hslashx.
    simpl (0 <=? -1). cbv iota. subst b. rewrite rfind_from_app by lia.
    now rewrite (rfind_from_absent "/" stem) by exact Hslash. }
  pose proof (rfind_from_bounds "/" dir 0 (Z.le_refl 0)) as Hsep.
  rewrite (proj2 (Z.ltb_lt _ _)) by lia.
  rewrite Nat2Z.id.
  destruct (all_dots_false stem Hstem) as (k & c & Hk & Hc).
  assert (k < String.length stem)%nat as Hklen.
  { destruct (Nat.lt_ge_cases k (String.length stem)) as [|Hge]; [assumption|].
    exfalso. revert Hk. clear -Hge. revert k Hge.
    induction stem as [|h s IH]; intros k Hge; simpl; [discriminate|].
    destruct k as [|k]; [simpl in Hge; lia|]. apply IH. simpl in Hge. lia. }
  rewrite (skip_leading_dots_stem _ _ _ _ (k + String.length dir)%nat c).
  - now rewrite str_take_app, str_drop_app.
  - lia.
  - rewrite str_length_app. simpl String.length. lia.
  - subst b. rewrite <- str_app_assoc, <- String.append_correct2.
    now rewrite <- String.append_correct1.
  - exact Hc.
Qed.

(** C8. When the second-to-last extension (the extension of the name
    with its last extension removed) is one of [.den], [.min], [.max],
    [.mean], [.idw], [.count], [splitexts] returns the name with both
    extensions removed and the two extensions joined; otherwise it
    returns what [os.path.splitext] returns.  In particular a product
    name [dir + stem + e + '.' + x] with [e] one of these six splits
    into [dir + stem] and [e + '.' + x]. *)
Theorem splitexts_compound (filename : string) :
  let bname := fst (PosixPath.splitext filename) in
  let ext := snd (PosixPath.splitext filename) in
  let ext2 := snd (PosixPath.splitext bname) in
  (ext2 ∈ [".den"; ".min"; ".max"; ".mean"; ".idw"; ".count"] ->
   splitexts filename = (fst (PosixPath.splitext bname), ext2 +:+ ext)) /\
  (ext2 ∉ [".den"; ".min"; ".max"; ".mean"; ".idw"; ".count"] ->
   splitexts filename = PosixPath.splitext filename) /\
  (forall dir stem e x,
     filename = dir +:+ stem +:+ e +:+ String "." x ->
     str_mem "/" stem = false -> all_dots stem = false ->
     e ∈ [".den"; ".min"; ".max"; ".mean"; ".idw"; ".count"] ->
     str_mem "." x = false -> str_mem "/" x = false ->
     splitexts filename = (dir +:+ stem, e +:+ String "." x)).
Proof.
  intros bname ext ext2.
  assert (forall s, str_in s product_exts = true
                    <-> s ∈ [".den"; ".min"; ".max"; ".mean"; ".idw"; ".count"]) as Hin.
  { intros s. unfold str_in. rewrite existsb_exists. split.
    - intros (y & Hy & Heq). apply String.eqb_eq in Heq as ->.
      apply list_elem_of_In. exact Hy.
    - intros Hel. exists s.
      split; [apply list_elem_of_In; exact Hel | apply String.eqb_refl]. }
  assert (splitexts filename =
          if str_in ext2 product_exts
          then (fst (PosixPath.splitext bname), ext2 +:+ ext)
          else PosixPath.splitext filename) as Hdef.
  { unfold splitexts. subst bname ext ext2.
    now destruct (PosixPath.splitext filename). }
  split; [|split].
  - intros Hext. now rewrite Hdef, (proj2 (Hin _) Hext).
  - intros Hext. rewrite Hdef. destruct (str_in ext2 product_exts) eqn:Hs;
      [|reflexivity]. exfalso. now apply Hext, Hin.
  - intros dir stem e x -> Hslash Hstem He Hdotx Hslashx.
    assert (exists name, e = String "." name /\
              str_mem "." name = false /\ str_mem "/" name = false)
      as (name & -> & Hdotn & Hslashn).
    { repeat (apply elem_of_cons in He as [-> | He]; [eauto|]).
      now apply elem_of_nil in He. }
    assert (PosixPath.splitext
              (dir +:+ stem +:+ String "." name +:+ String "." x)
            = (dir +:+ stem +:+ String "." name, String "." x)) as Hfirst.
    { rewrite (str_app_assoc stem (String "." name) (String "." x)).
      apply splitext_visible_ext; try assumption.
      - clear -Hslash Hslashn. induction stem as [|h s IH]; simpl in *.
        + exact Hslashn.
        + apply orb_false_elim in Hslash as [-> Hs]. now apply IH.
      - clear -Hstem. induction stem as [|h s IH]; simpl in *; [discriminate|].
        destruct (Ascii.eqb h "."); simpl in *; [now apply IH | reflexivity]. }
    unfold splitexts. rewrite Hfirst.
    rewrite (splitext_visible_ext dir stem name) by assumption.
    cbv zeta. cbn [fst snd].
    now rewrite (proj2 (Hin _) He).
Qed.

Lemma splitexts_compound_witness :
  (splitexts "out/a.den.tif" = ("out/a", ".den.tif") /\
   splitexts "out/a.min.tif" = ("out/a", ".min.tif") /\
   splitexts "out/a.max.tif" = ("out/a", ".max.tif") /\
   splitexts "out/a.mean.tif" = ("out/a", ".mean.tif") /\
   splitexts "out/a.idw.tif" = ("out/a", ".idw.tif") /\
   splitexts "out/a.count.tif" = ("out/a", ".count.tif")) /\
  (splitexts "out/b.den.vrt" = ("out/b", ".den.vrt") /\
   splitexts "out/b.min.vrt" = ("out/b", ".min.vrt") /\
   splitexts "out/b.max.vrt" = ("out/b", ".max.vrt") /\
   splitexts "out/b.mean.vrt" = ("out/b", ".mean.vrt") /\
   splitexts "out/b.idw.vrt" = ("out/b", ".idw.vrt") /\
   splitexts "out/b.count.vrt" = ("out/b", ".count.vrt")) /\
  splitexts "out/chm.tif" = ("out/chm", ".tif") /\
  splitexts "out/dtm.std.tif" = ("out/dtm.std", ".tif").
Proof.
  split; [|split; [|split]].
  - refine (conj _ (conj _ (conj _ (conj _ (conj _ _))))).
    + apply (proj1 (splitexts_compound "out/a.den.tif")).
      apply list_elem_of_In. vm_compute. tauto.
    + apply (proj1 (splitexts_compound "out/a.min.tif")).
      apply list_elem_of_In. vm_compute. tauto.
    + apply (proj1 (splitexts_compound "out/a.max.tif")).
      apply list_elem_of_In. vm_compute. tauto.
    + apply (proj1 (splitexts_compound "out/a.mean.tif")).
      apply list_elem_of_In. vm_compute. tauto.
    + apply (proj1 (splitexts_compound "out/a.idw.tif")).
      apply list_elem_of_In. vm_compute. tauto.
    + apply (proj1 (splitexts_compound "out/a.count.tif")).
      apply list_elem_of_In. vm_compute. tauto.
  - refine (conj _ (conj _ (conj _ (conj _ (conj _ _))))).
    + apply (proj2 (proj2 (splitexts_compound "out/b.den.vrt"))
               "out/" "b" ".den" "vrt"); try reflexivity.
      apply list_elem_of_In. vm_compute. tauto.
    + apply (proj2 (proj2 (splitexts_compound "out/b.min.vrt"))
               "out/" "b" ".min" "vrt"); try reflexivity.
      apply list_elem_of_In. vm_compute. tauto.
    + apply (proj2 (proj2 (splitexts_compound "out/b.max.vrt"))
               "out/" "b" ".max" "vrt"); try reflexivity.
      apply list_elem_of_In. vm_compute. tauto.
    + apply (proj2 (proj2 (splitexts_compound "out/b.mean.vrt"))
               "out/" "b" ".mean" "vrt"); try reflexivity.
      apply list_elem_of_In. vm_compute. tauto.
    + apply (proj2 (proj2 (splitexts_compound "out/b.idw.vrt"))
               "out/" "b" ".idw" "vrt"); try reflexivity.
      apply list_elem_of_In. vm_compute. tauto.
    + apply (proj2 (proj2 (splitexts_compound "out/b.count.vrt"))
               "out/" "b" ".count" "vrt"); try reflexivity.
      apply list_elem_of_In. vm_compute. tauto.
  - apply (proj1 (proj2 (splitexts_compound "out/chm.tif"))).
    intros Hin. apply list_elem_of_In in Hin. vm_compute in Hin.
    repeat (destruct Hin as [Hin | Hin]; [discriminate Hin|]). exact Hin.
  - apply (proj1 (proj2 (splitexts_compound "out/dtm.std.tif"))).
    intros Hin. apply list_elem_of_In in Hin. vm_compute in Hin.
    repeat (destruct Hin as [Hin | Hin]; [discriminate Hin|]). exact Hin.
Defined.

(* ===================================================================== *)
(** ** Classification parameters *)
(* ===================================================================== *)

Example class_params_forest_complex :
  class_params (Some {| Basename := "f"; attributes := {[ "class" := PyStr "4" ]} |})
    PyNone PyNone = Return (PyInt 10, PyInt 2).
Proof. reflexivity. Qed.

Example class_params_one_override_ignored :
  class_params (Some Sample.site) (PyInt 7) PyNone = Return (PyInt 5, PyInt 2).
Proof. reflexivity. Qed.

Example class_params_no_feature :
  class_params None PyNone PyNone = Return (PyStr "1", PyStr "3").
Proof. reflexivity. Qed.

Example class_params_unhashable_class :
  class_params (Some {| Basename := "f"; attributes := {[ "class" := PyList [1] ]} |})
    (PyInt 7) PyNone = Return (PyInt 7, PyStr "3").
Proof. reflexivity. Qed.

Lemma is_none_false (v : pyval) : v <> PyNone -> is_none v = false.
Proof. destruct v; simpl; congruence. Qed.

Lemma dict_getitem_params_unknown (v : pyval) :
  v ∉ class_codes -> exists e, dict_getitem params v = Raise e.
Proof.
  intros Hv. destruct v as [|z|s|l]; cbn [dict_getitem]; eauto.
  destruct (dict_lookup params s) as [p|] eqn:Hs; eauto.
  exfalso. apply Hv. unfold class_codes. unfold params in Hs. cbn [dict_lookup] in Hs.
  repeat match type of Hs with
         | (if String.eqb ?k s then _ else _) = _ =>
             destruct (String.eqb_spec k s) as [<-|_]; [set_solver|]
         end.
  discriminate.
Qed.

(** C3, as the code has it.  [class_params] never raises; with both
    overrides supplied it returns them, whatever the feature; otherwise
    the class codes "1", "2", "3", "4" give the integer pairs (1,3),
    (1,2), (5,2), (10,2); and when the feature is missing, has no class or
    an unrecognised one, the result is the pair of the overrides with
    the STRINGS '1' and '3' in place of a missing slope and cellsize:
    ('1', '3') when neither is supplied, which [class_suffix] renders
    like (1, 3). *)
Theorem class_params_total_and_defaults
    (feature : option GeoFeature) (slope cellsize : pyval) :
  (exists p, class_params feature slope cellsize = Return p) /\
  (slope <> PyNone -> cellsize <> PyNone ->
   class_params feature slope cellsize = Return (slope, cellsize)) /\
  (slope = PyNone \/ cellsize = PyNone ->
   (feature_getitem feature "class" = Return (PyStr "1") ->
    class_params feature slope cellsize = Return (PyInt 1, PyInt 3)) /\
   (feature_getitem feature "class" = Return (PyStr "2") ->
    class_params feature slope cellsize = Return (PyInt 1, PyInt 2)) /\
   (feature_getitem feature "class" = Return (PyStr "3") ->
    class_params feature slope cellsize = Return (PyInt 5, PyInt 2)) /\
   (feature_getitem feature "class" = Return (PyStr "4") ->
    class_params feature slope cellsize = Return (PyInt 10, PyInt 2)) /\
   ((forall v, feature_getitem feature "class" = Return v -> v ∉ class_codes) ->
    class_params feature slope cellsize =
      Return (if is_none slope then PyStr "1" else slope,
              if is_none cellsize then PyStr "3" else cellsize))) /\
  (forall suffix,
     class_suffix (PyStr "1") (PyStr "3") suffix =
     class_suffix (PyInt 1) (PyInt 3) suffix).
Proof.
  split; [|split; [|split]].
  - unfold class_params.
    destruct (negb (is_none slope) && negb (is_none cellsize)); eauto.
    destruct (rbind _ _); eauto.
  - intros Hs Hc. unfold class_params.
    now rewrite (is_none_false _ Hs), (is_none_false _ Hc).
  - intros Hnone.
    assert (negb (is_none slope) && negb (is_none cellsize) = false) as Hb.
    { destruct Hnone as [-> | ->]; simpl; [reflexivity | apply andb_false_r]. }
    unfold class_params. rewrite Hb.
    repeat split; try (intros ->; reflexivity).
    intros Hunk.
    destruct (feature_getitem feature "class") as [v|e] eqn:Hget; simpl.
    + destruct (dict_getitem_params_unknown v (Hunk v eq_refl)) as [e ->].
      reflexivity.
    + reflexivity.
  - reflexivity.
Qed.

Lemma class_params_total_and_defaults_witness :
  class_params None (PyInt 7) PyNone = Return (PyInt 7, PyStr "3") /\
  class_params (Some Sample.site) PyNone PyNone = Return (PyInt 5, PyInt 2) /\
  class_params None (PyInt 7) (PyInt 4) = Return (PyInt 7, PyInt 4).
Proof.
  split; [|split].
  - apply (class_params_total_and_defaults None (PyInt 7) PyNone).
    + right; reflexivity.
    + intros v Hv; discriminate Hv.
  - apply (class_params_total_and_defaults (Some Sample.site) PyNone PyNone).
    + left; reflexivity.
    + reflexivity.
  - apply (proj1 (proj2
             (class_params_total_and_defaults None (PyInt 7) (PyInt 4))));
      discriminate.
Defined.

(** C3 as stated fails: with no feature and no override the result is
    not the integer pair (1, 3). *)
Lemma class_params_default_not_ints :
  class_params None PyNone PyNone <> Return (PyInt 1, PyInt 3).
Proof. discriminate. Qed.

(* ===================================================================== *)
(** ** File discovery *)
(* ===================================================================== *)

Section Discovery.
Context {pix : Type} {E : External pix}.

(** C5. With no LAS file matched (after the optional overlap filter)
    [find_lasfiles] raises instead of returning the empty list, and so
    does [find_classified_lasfile] when nothing matches the
    classification-suffix pattern; a non-empty match set is returned
    as it is. *)
Theorem discovery_raises_on_empty (lasdir : string)
    (site : option GeoFeature) (checkoverlap : bool) (params : pyval * pyval) :
  (las_matches lasdir site checkoverlap = Return [] ->
   find_lasfiles lasdir site checkoverlap
     = Raise (Exception "No LAS files found")) /\
  (forall l, l <> [] -> las_matches lasdir site checkoverlap = Return l ->
   find_lasfiles lasdir site checkoverlap = Return l) /\
  (classified_matches lasdir site params = [] ->
   find_classified_lasfile lasdir site params
     = Raise (Exception "No classified LAS files found")) /\
  (classified_matches lasdir site params <> [] ->
   find_classified_lasfile lasdir site params
     = Return (classified_matches lasdir site params)).
Proof.
  assert (find_lasfiles lasdir site checkoverlap
          = rbind (las_matches lasdir site checkoverlap)
              (fun l => if Nat.eqb (length l) 0
                        then Raise (Exception "No LAS files found")
                        else Return l)) as Hlas.
  { unfold find_lasfiles, las_matches.
    destruct checkoverlap, site; reflexivity. }
  assert (find_classified_lasfile lasdir site params
          = if Nat.eqb (length (classified_matches lasdir site params)) 0
            then Raise (Exception "No classified LAS files found")
            else Return (classified_matches lasdir site params)) as Hcls.
  { unfold find_classified_lasfile, classified_matches.
    destruct params; reflexivity. }
  rewrite Hlas, Hcls. repeat split.
  - intros ->. reflexivity.
  - intros [|x l] Hne ->; [congruence | reflexivity].
  - intros ->. reflexivity.
  - destruct (classified_matches lasdir site params); [congruence | reflexivity].
Qed.

End Discovery.

Example find_lasfiles_tiles :
  find_lasfiles (E := Sample.tools) "tiles" (Some Sample.site) true
  = Return ["tiles/a.las"; "tiles/b.las"; "tiles/site_l2d_s1c3.las"].
Proof. reflexivity. Qed.

Example find_lasfiles_nothing :
  find_lasfiles (E := Sample.tools) "elsewhere" None false
  = Raise (Exception "No LAS files found").
Proof. reflexivity. Qed.

Example find_classified_lasfile_site :
  find_classified_lasfile (E := Sample.tools) "tiles"
    (Some Sample.site) (PyStr "1", PyStr "3")
  = Return ["tiles/site_l2d_s1c3.las"].
Proof. reflexivity. Qed.

Example find_classified_lasfile_nothing :
  find_classified_lasfile (E := Sample.tools) "tiles"
    (Some Sample.site) (PyInt 10, PyInt 2)
  = Raise (Exception "No classified LAS files found").
Proof. reflexivity. Qed.

Lemma discovery_raises_on_empty_witness :
  find_lasfiles (E := Sample.tools) "elsewhere" None false
    = Raise (Exception "No LAS files found") /\
  find_lasfiles (E := Sample.tools) "tiles" (Some Sample.site) true
    = Return ["tiles/a.las"; "tiles/b.las"; "tiles/site_l2d_s1c3.las"] /\
  find_classified_lasfile (E := Sample.tools) "tiles"
    (Some Sample.site) (PyInt 10, PyInt 2)
    = Raise (Exception "No classified LAS files found") /\
  find_classified_lasfile (E := Sample.tools) "tiles"
    (Some Sample.site) (PyStr "1", PyStr "3")
    = Return ["tiles/site_l2d_s1c3.las"].
Proof.
  split; [|split; [|split]].
  - apply (proj1 (discovery_raises_on_empty (E := Sample.tools)
                    "elsewhere" None false (PyNone, PyNone))).
    reflexivity.
  - apply (proj1 (proj2 (discovery_raises_on_empty (E := Sample.tools)
                    "tiles" (Some Sample.site) true (PyNone, PyNone)))).
    + discriminate.
    + reflexivity.
  - apply (proj1 (proj2 (proj2 (discovery_raises_on_empty
                    (E := Sample.tools)
                    "tiles" (Some Sample.site) true (PyInt 10, PyInt 2))))).
    reflexivity.
  - apply (proj2 (proj2 (proj2 (discovery_raises_on_empty
                    (E := Sample.tools)
                    "tiles" (Some Sample.site) true (PyStr "1", PyStr "3"))))).
    discriminate.
Defined.

(* ===================================================================== *)
(** ** The [gdalbuildvrt] wrapper *)
(* ===================================================================== *)

Section Vrt.
Context {pix : Type} {E : External pix}.

Lemma create_vrt_skip filenames fout site overwrite verbose (w : World pix) :
  is_Some (files w !! fout) -> overwrite = false ->
  create_vrt filenames fout site overwrite verbose w = (Return fout, w).
Proof.
  intros Hex ->. unfold create_vrt, mbind, M_bind, os_path_exists.
  now rewrite (bool_decide_eq_true_2 _ Hex).
Qed.

Lemma create_vrt_build filenames fout site overwrite verbose (w : World pix) :
  files w !! fout = None \/ overwrite = true ->
  create_vrt filenames fout site overwrite verbose w =
    match site with
    | [] => (Raise IndexError, w)
    | None :: _ =>
        (Return fout,
         after_command (gdalbuildvrt_cmd verbose [] fout filenames) w)
    | Some _ :: _ =>
        match get_vector_bounds site with
        | Return bounds =>
            (Return fout,
             after_command
               (gdalbuildvrt_cmd verbose ["-te " +:+ str_join " " bounds]
                  fout filenames) w)
        | Raise e => (Raise e, w)
        end
    end.
Proof.
  intros Hbuild.
  assert (bool_decide (is_Some (files w !! fout)) && negb overwrite = false)
    as Hb.
  { destruct Hbuild as [Hnone | ->]; [|apply andb_false_r].
    rewrite bool_decide_eq_false_2; [reflexivity|].
    rewrite Hnone. intros [? ?]; discriminate. }
  unfold create_vrt, mbind, M_bind, os_path_exists. rewrite Hb.
  destruct site as [|[f|] site']; [reflexivity| |].
  - unfold lift. destruct (get_vector_bounds _); [|reflexivity].
    destruct verbose; reflexivity.
  - destruct verbose; reflexivity.
Qed.

(** C7. When [fout] already exists and [overwrite] is unset,
    [create_vrt] returns [fout] at once: no command is run and no file
    changes.  A command is run only when the target is absent or
    [overwrite] is set, and then it is the one [gdalbuildvrt] line. *)
Theorem create_vrt_existing_untouched (filenames : list string)
    (fout : string) (site : list (option GeoFeature))
    (overwrite verbose : bool) (w : World pix) :
  (is_Some (files w !! fout) -> overwrite = false ->
   create_vrt filenames fout site overwrite verbose w = (Return fout, w)) /\
  (commands (snd (create_vrt filenames fout site overwrite verbose w))
     <> commands w ->
   files w !! fout = None \/ overwrite = true) /\
  (files w !! fout = None \/ overwrite = true ->
   forall rest, site = None :: rest ->
   create_vrt filenames fout site overwrite verbose w =
     (Return fout,
      after_command (gdalbuildvrt_cmd verbose [] fout filenames) w)).
Proof.
  split; [|split].
  - apply create_vrt_skip.
  - intros Hcmd. destruct overwrite; [now right|].
    destruct (files w !! fout) as [r|] eqn:Hf; [|now left].
    exfalso. apply Hcmd.
    rewrite create_vrt_skip; [reflexivity | rewrite Hf; eauto | reflexivity].
  - intros Hbuild rest ->. now rewrite create_vrt_build.
Qed.

End Vrt.

Example create_vrt_reuses_existing :
  create_vrt (E := Sample.tools)
    ["a.tif"; "b.tif"] "dtm_r1.idw.tif" [None] false false Sample.world
  = (Return "dtm_r1.idw.tif", Sample.world).
Proof. reflexivity. Qed.

Example create_vrt_builds_absent :
  commands (snd (create_vrt (E := Sample.tools)
    ["a.tif"; "b.tif"] "mosaic.vrt" [Some Sample.site] false false Sample.world))
  = ["gdalbuildvrt -q -te 0 0 30 20 mosaic.vrt a.tif b.tif"].
Proof. reflexivity. Qed.

Lemma create_vrt_existing_untouched_witness :
  create_vrt (E := Sample.tools)
    ["a.tif"; "b.tif"] "dtm_r1.idw.tif" [None] false false Sample.world
    = (Return "dtm_r1.idw.tif", Sample.world) /\
  create_vrt (E := Sample.tools)
    ["a.tif"; "b.tif"] "dtm_r1.idw.tif" [None] true false Sample.world
    = (Return "dtm_r1.idw.tif",
       after_command (E := Sample.tools)
         "gdalbuildvrt -q dtm_r1.idw.tif a.tif b.tif" Sample.world).
Proof.
  split.
  - apply (proj1 (create_vrt_existing_untouched (E := Sample.tools)
                    ["a.tif"; "b.tif"] "dtm_r1.idw.tif" [None] false false
                    Sample.world)).
    + vm_compute. eauto.
    + reflexivity.
  - apply (proj2 (proj2 (create_vrt_existing_untouched (E := Sample.tools)
                    ["a.tif"; "b.tif"] "dtm_r1.idw.tif" [None] true false
                    Sample.world)) (or_intror eq_refl) []).
    reflexivity.
Defined.

(* ===================================================================== *)
(** ** Facts about the array operations *)
(* ===================================================================== *)

Lemma cell_is_Some {A} (a : Numpy.ndarray A) (i j : nat) :
  Numpy.wf a ->
  is_Some (Numpy.cell a i j) <->
  (i < fst (Numpy.shape a))%nat /\ (j < snd (Numpy.shape a))%nat.
Proof.
  intros [Hlen Hrows]. unfold Numpy.cell.
  destruct (Numpy.rows a !! i) as [row|] eqn:Hrow; simpl.
  - pose proof (lookup_lt_Some _ _ _ Hrow) as Hi.
    rewrite Forall_lookup in Hrows. specialize (Hrows _ _ Hrow).
    rewrite lookup_lt_is_Some. simpl in Hrows. lia.
  - apply lookup_ge_None in Hrow. split.
    + intros [? ?]; discriminate.
    + lia.
Qed.

Section NumpyFacts.
Import Numpy.
Local Open Scope nat_scope.
Context {A : Type}.
Implicit Types (a : ndarray A) (ij : nat * nat) (locs : list (nat * nat)).

Lemma in_range_same_shape {B} a (b : ndarray B) ij :
  wf a -> wf b -> shape a = shape b ->
  is_Some (cell b (fst ij) (snd ij)) -> in_range a ij.
Proof.
  intros Ha Hb Hs Hin. unfold in_range.
  apply (cell_is_Some a); [assumption|]. rewrite Hs.
  now apply (cell_is_Some b).
Qed.

Lemma set_cell_Return a ij v :
  in_range a ij ->
  exists a', set_cell a ij v = Return a' /\ shape a' = shape a /\
    (wf a -> wf a') /\
    forall i j, cell a' i j = if decide ((i, j) = ij) then Some v
                              else cell a i j.
Proof.
  destruct ij as [i0 j0]. unfold in_range, set_cell. simpl.
  intros [x Hx]. rewrite Hx. eexists. split; [reflexivity|].
  split; [reflexivity|]. split.
  - intros [Hlen Hrows]. split; simpl.
    + now rewrite length_alter.
    + apply Forall_alter; [assumption|].
      intros row _ Hrow. now rewrite length_insert.
  - intros i j. unfold cell in *. simpl.
    destruct (rows a !! i0) as [row|] eqn:Hrow; [|discriminate].
    simpl in Hx. apply lookup_lt_Some in Hx.
    destruct (decide ((i, j) = (i0, j0))) as [Heq|Hne].
    + injection Heq as -> ->.
      rewrite list_lookup_alter_eq, Hrow. simpl.
      now apply list_lookup_insert_eq.
    + destruct (decide (i = i0)) as [->|Hi].
      * rewrite list_lookup_alter_eq, Hrow. simpl.
        apply list_lookup_insert_ne. congruence.
      * now rewrite list_lookup_alter_ne by congruence.
Qed.

Lemma setitem_scalar_Return locs : forall a v,
  Forall (in_range a) locs ->
  exists a', setitem_scalar a locs v = Return a' /\ shape a' = shape a /\
    (wf a -> wf a') /\
    forall i j, cell a' i j = if decide ((i, j) ∈ locs) then Some v
                              else cell a i j.
Proof.
  induction locs as [|ij locs IH]; intros a v Hin.
  - exists a. split; [reflexivity|]. split; [reflexivity|]. split; [tauto|].
    intros i j. destruct (decide _) as [Hel|]; [|reflexivity].
    now apply elem_of_nil in Hel.
  - apply Forall_cons in Hin as [Hij Hin].
    destruct (set_cell_Return a ij v Hij) as (a1 & Hset & Hs1 & Hwf1 & Hc1).
    destruct (IH a1 v) as (a' & Hrec & Hs' & Hwf' & Hc').
    { eapply Forall_impl; [exact Hin|]. intros [i j]. unfold in_range.
      simpl. rewrite Hc1. destruct (decide _); eauto. }
    exists a'. simpl. rewrite Hset. simpl. split; [assumption|].
    split; [congruence|]. split; [tauto|].
    intros i j. rewrite Hc', Hc1.
    destruct (decide ((i, j) ∈ locs)) as [Hel|Hnel].
    + rewrite decide_True; [reflexivity | now right].
    + destruct (decide ((i, j) = ij)) as [<-|Hne].
      * rewrite decide_True; [reflexivity | now left].
      * rewrite decide_False; [reflexivity|].
        intros [?|?]%elem_of_cons; contradiction.
Qed.

Lemma getitem_Return a locs :
  Forall (in_range a) locs ->
  exists vals, getitem a locs = Return vals /\ length vals = length locs.
Proof.
  induction locs as [|ij locs IH]; intros Hin.
  - exists []. split; reflexivity.
  - apply Forall_cons in Hin as [[x Hx] Hin].
    destruct (IH Hin) as (vals & Hget & Hlen).
    exists (x :: vals). simpl. rewrite Hx, Hget. simpl.
    split; [reflexivity | now rewrite Hlen].
Qed.

Lemma getitem_length a locs vals :
  getitem a locs = Return vals -> length vals = length locs.
Proof.
  revert vals. induction locs as [|ij locs IH]; intros vals; simpl.
  - intros [= <-]. reflexivity.
  - destruct (cell a (fst ij) (snd ij)); [|discriminate].
    destruct (getitem a locs) as [vs|]; [|discriminate].
    intros [= <-]. simpl. now rewrite (IH vs).
Qed.

(** Copying the cells [locs] of [b] into [a]. *)
Lemma assign_getitem (b : ndarray A) locs : forall a vals,
  Forall (in_range a) locs -> getitem b locs = Return vals ->
  exists a', assign a locs vals = Return a' /\ shape a' = shape a /\
    (wf a -> wf a') /\
    forall i j, cell a' i j = if decide ((i, j) ∈ locs) then cell b i j
                              else cell a i j.
Proof.
  induction locs as [|ij locs IH]; intros a vals Hin Hget.
  - exists a. split; [reflexivity|]. split; [reflexivity|]. split; [tauto|].
    intros i j. destruct (decide _) as [Hel|]; [|reflexivity].
    now apply elem_of_nil in Hel.
  - apply Forall_cons in Hin as [Hij Hin]. simpl in Hget.
    destruct (cell b (fst ij) (snd ij)) as [x|] eqn:Hx; [|discriminate].
    destruct (getitem b locs) as [vs|] eqn:Hvs; [|discriminate].
    injection Hget as <-.
    destruct (set_cell_Return a ij x Hij) as (a1 & Hset & Hs1 & Hwf1 & Hc1).
    destruct (IH a1 vs) as (a' & Hrec & Hs' & Hwf' & Hc'); [|reflexivity|].
    { eapply Forall_impl; [exact Hin|]. intros [i j]. unfold in_range.
      simpl. rewrite Hc1. destruct (decide _); eauto. }
    exists a'. simpl. rewrite Hset. simpl. split; [assumption|].
    split; [congruence|]. split; [tauto|].
    intros i j. rewrite Hc', Hc1.
    destruct (decide ((i, j) ∈ locs)) as [Hel|Hnel].
    + rewrite decide_True; [reflexivity | now right].
    + destruct (decide ((i, j) = ij)) as [<-|Hne].
      * simpl in Hx. rewrite decide_True; [now rewrite Hx | now left].
      * rewrite decide_False; [reflexivity|].
        intros [?|?]%elem_of_cons; contradiction.
Qed.

(** Writing one value per cell of a duplicate-free [locs]. *)
Lemma assign_Return locs : forall a vals,
  Forall (in_range a) locs -> NoDup locs -> length vals = length locs ->
  exists a', assign a locs vals = Return a' /\ shape a' = shape a /\
    (wf a -> wf a') /\
    (forall i j, (i, j) ∉ locs -> cell a' i j = cell a i j) /\
    (forall k i j, locs !! k = Some (i, j) -> cell a' i j = vals !! k).
Proof.
  induction locs as [|ij locs IH]; intros a vals Hin Hnd Hlen.
  - exists a. split; [reflexivity|]. split; [reflexivity|]. split; [tauto|].
    split; [reflexivity|]. intros k i j Hk. discriminate.
  - destruct vals as [|x vals]; [discriminate|]. simpl in Hlen.
    apply Forall_cons in Hin as [Hij Hin].
    apply NoDup_cons in Hnd as [Hnotin Hnd].
    destruct (set_cell_Return a ij x Hij) as (a1 & Hset & Hs1 & Hwf1 & Hc1).
    destruct (IH a1 vals) as (a' & Hrec & Hs' & Hwf' & Hout & Hat);
      [|assumption|lia|].
    { eapply Forall_impl; [exact Hin|]. intros [i j]. unfold in_range.
      simpl. rewrite Hc1. destruct (decide _); eauto. }
    exists a'. simpl. rewrite Hset. simpl. split; [assumption|].
    split; [congruence|]. split; [tauto|]. split.
    + intros i j Hnel. rewrite Hout, Hc1.
      * rewrite decide_False; [reflexivity|]. intros <-. apply Hnel. now left.
      * intros Hel. apply Hnel. now right.
    + intros [|k] i j Hk; simpl in *.
      * injection Hk as ->. rewrite Hout by assumption. rewrite Hc1.
        now rewrite decide_True.
      * now apply Hat.
Qed.

Lemma setitem_assign a locs vals :
  length vals = length locs -> setitem a locs vals = assign a locs vals.
Proof.
  intros Hlen. unfold setitem.
  destruct vals as [|v [|v' vals]].
  - now rewrite Hlen, Nat.eqb_refl.
  - destruct locs as [|ij [|ij' locs]]; try discriminate. reflexivity.
  - now rewrite Hlen, Nat.eqb_refl.
Qed.

End NumpyFacts.

Section WhereFacts.
Import Numpy.
Local Open Scope nat_scope.

Lemma elem_of_row_where (i j : nat) (row : list bool) (a b : nat) :
  (a, b) ∈ row_where i j row <->
  a = i /\ j <= b /\ row !! (b - j) = Some true.
Proof.
  revert j. induction row as [|x row IH]; intros j; simpl.
  - rewrite elem_of_nil. split; [tauto|]. intros (_ & _ & H). discriminate.
  - assert ((a, b) ∈ row_where i (S j) row <->
            a = i /\ j < b /\ (x :: row) !! (b - j) = Some true) as Hrest.
    { rewrite IH. split; intros (-> & Hle & Hl); (split; [reflexivity|]);
        (split; [lia|]).
      - now replace (b - j) with (S (b - S j)) by lia.
      - now replace (b - j) with (S (b - S j)) in Hl by lia. }
    destruct x.
    + rewrite elem_of_cons, Hrest. split.
      * intros [[= -> ->] | (-> & Hlt & Hl)].
        -- rewrite Nat.sub_diag. auto.
        -- auto with lia.
      * intros (-> & Hle & Hl). destruct (decide (b = j)) as [->|Hne].
        -- now left.
        -- right. auto with lia.
    + rewrite Hrest. split.
      * intros (-> & Hlt & Hl). auto with lia.
      * intros (-> & Hle & Hl). destruct (decide (b = j)) as [->|Hne].
        -- rewrite Nat.sub_diag in Hl. discriminate.
        -- auto with lia.
Qed.

Lemma elem_of_where_from (i : nat) (mask : list (list bool)) (a b : nat) :
  (a, b) ∈ where_from i mask <->
  i <= a /\ exists row, mask !! (a - i) = Some row /\ row !! b = Some true.
Proof.
  revert i. induction mask as [|r mask IH]; intros i; simpl.
  - rewrite elem_of_nil. split; [tauto|]. intros (_ & row & H & _).
    discriminate.
  - rewrite elem_of_app, elem_of_row_where, IH, Nat.sub_0_r. split.
    + intros [(-> & _ & Hb) | (Hle & row & Hrow & Hb)].
      * split; [lia|]. exists r. now rewrite Nat.sub_diag.
      * split; [lia|]. exists row.
        now replace (a - i) with (S (a - S i)) by lia.
    + intros (Hle & row & Hrow & Hb).
      destruct (decide (a = i)) as [->|Hne].
      * left. rewrite Nat.sub_diag in Hrow. injection Hrow as ->.
        auto with lia.
      * right. split; [lia|]. exists row.
        now replace (a - i) with (S (a - S i)) in Hrow by lia.
Qed.

Lemma elem_of_numpy_where (mask : ndarray bool) (i j : nat) :
  (i, j) ∈ numpy_where mask <-> cell mask i j = Some true.
Proof.
  unfold numpy_where, cell. rewrite elem_of_where_from, Nat.sub_0_r. split.
  - intros (_ & row & -> & Hj). exact Hj.
  - intros H. split; [lia|].
    destruct (rows mask !! i) as [row|]; [|discriminate]. eauto.
Qed.

Lemma NoDup_row_where (i j : nat) (row : list bool) :
  NoDup (row_where i j row).
Proof.
  revert j. induction row as [|x row IH]; intros j; simpl.
  - constructor.
  - destruct x; [|apply IH]. constructor; [|apply IH].
    rewrite elem_of_row_where. lia.
Qed.

Lemma NoDup_numpy_where (mask : ndarray bool) : NoDup (numpy_where mask).
Proof.
  unfold numpy_where. generalize 0 as i.
  induction (rows mask) as [|r m IH]; intros i; simpl.
  - constructor.
  - apply NoDup_app. split; [apply NoDup_row_where|]. split; [|apply IH].
    intros [a b]. rewrite elem_of_row_where, elem_of_where_from. lia.
Qed.

Lemma cell_map_cells {A B} (f : A -> B) (a : ndarray A) (i j : nat) :
  cell (map_cells f a) i j = f <$> cell a i j.
Proof.
  unfold cell, map_cells. simpl. rewrite list_lookup_fmap.
  destruct (rows a !! i) as [row|]; simpl; [|reflexivity].
  apply list_lookup_fmap.
Qed.

Lemma wf_map_cells {A B} (f : A -> B) (a : ndarray A) :
  wf a -> wf (map_cells f a).
Proof.
  intros [Hlen Hrows]. split; simpl.
  - now rewrite length_fmap.
  - apply Forall_fmap. eapply Forall_impl; [exact Hrows|].
    intros row Hrow. simpl. now rewrite length_fmap.
Qed.

(** The cells a comparison with a scalar selects. *)
Lemma elem_of_where_map_cells {A} (f : A -> bool) (a : ndarray A) (i j : nat) :
  (i, j) ∈ numpy_where (map_cells f a) <->
  exists x, cell a i j = Some x /\ f x = true.
Proof.
  rewrite elem_of_numpy_where, cell_map_cells.
  destruct (cell a i j) as [x|]; simpl.
  - split; [intros [= H]; eauto | intros (y & [= <-] & ->); reflexivity].
  - split; [discriminate | intros (y & H & _); discriminate].
Qed.

Lemma where_map_cells_in_range {A} (f : A -> bool) (a : ndarray A) :
  Forall (in_range a) (numpy_where (map_cells f a)).
Proof.
  apply Forall_forall. intros [i j] Hel.
  apply elem_of_where_map_cells in Hel as (x & Hx & _).
  unfold in_range. simpl. eauto.
Qed.

Lemma cell_elementwise {A B C} (f : A -> B -> C)
    (a : ndarray A) (b : ndarray B) (c : ndarray C) (i j : nat) :
  elementwise f a b = Return c ->
  cell c i j = match cell a i j, cell b i j with
               | Some x, Some y => Some (f x y)
               | _, _ => None
               end.
Proof.
  unfold elementwise. destruct (shape_eqb _ _); [|discriminate].
  intros [= <-]. unfold cell. simpl. rewrite lookup_zip_with.
  destruct (rows a !! i) as [ra|]; simpl; [|reflexivity].
  destruct (rows b !! i) as [rb|]; simpl.
  - rewrite lookup_zip_with.
    destruct (ra !! j); simpl; [|reflexivity].
    destruct (rb !! j); reflexivity.
  - destruct (ra !! j); reflexivity.
Qed.

Lemma shape_eqb_eq (s t : nat * nat) : shape_eqb s t = true <-> s = t.
Proof.
  unfold shape_eqb. destruct s, t. simpl.
  rewrite andb_true_iff, !Nat.eqb_eq. split; [intros [-> ->]|intros [= -> ->]]; auto.
Qed.

Lemma Forall_zip_with_length {A B C} (f : A -> B -> C) (c : nat)
    (l : list (list A)) (k : list (list B)) :
  Forall (fun r => length r = c) l -> Forall (fun r => length r = c) k ->
  Forall (fun r => length r = c) (zip_with (zip_with f) l k).
Proof.
  intros Hl. revert k. induction Hl as [|ra l Hra Hl IH];
    intros k Hk; destruct Hk as [|rb k Hrb Hk]; simpl; constructor.
  - rewrite length_zip_with. lia.
  - now apply IH.
Qed.

Lemma elementwise_Return {A B C} (f : A -> B -> C)
    (a : ndarray A) (b : ndarray B) :
  wf a -> wf b -> shape a = shape b ->
  exists c, elementwise f a b = Return c /\ shape c = shape a /\ wf c.
Proof.
  intros [Hla Hra] [Hlb Hrb] Hs. unfold elementwise.
  rewrite (proj2 (shape_eqb_eq _ _) Hs). eexists. split; [reflexivity|].
  split; [reflexivity|]. split; simpl.
  - rewrite length_zip_with. rewrite Hs in *. lia.
  - rewrite Hs in *. now apply Forall_zip_with_length.
Qed.

Lemma wf_slice_rows {A} (n : nat) (a : ndarray A) : wf a -> wf (slice_rows n a).
Proof.
  intros [Hlen Hrows]. split; simpl.
  - rewrite length_take. lia.
  - now apply Forall_take.
Qed.

Lemma wf_slice_cols {A} (n : nat) (a : ndarray A) : wf a -> wf (slice_cols n a).
Proof.
  intros [Hlen Hrows]. split; simpl.
  - now rewrite length_fmap.
  - apply Forall_fmap. eapply Forall_impl; [exact Hrows|].
    intros row Hrow. simpl in *. now rewrite length_take, Hrow.
Qed.

Lemma cell_slice_rows {A} (n : nat) (a : ndarray A) (i j : nat) :
  i < n -> cell (slice_rows n a) i j = cell a i j.
Proof. intros Hi. unfold cell. simpl. now rewrite lookup_take_lt. Qed.

Lemma cell_slice_cols {A} (n : nat) (a : ndarray A) (i j : nat) :
  j < n -> cell (slice_cols n a) i j = cell a i j.
Proof.
  intros Hj. unfold cell. simpl. rewrite list_lookup_fmap.
  destruct (rows a !! i); simpl; [|reflexivity]. now apply lookup_take_lt.
Qed.

End WhereFacts.

(* ===================================================================== *)
(** ** The canopy height model *)
(* ===================================================================== *)

Section Chm.
Import Numpy.
Local Open Scope nat_scope.
Context {pix : Type} {P : Pixel pix} {E : External pix}.

Lemma slice_rows_ge {A} (n : nat) (a : ndarray A) :
  wf a -> fst (shape a) <= n -> slice_rows n a = a.
Proof.
  destruct a as [[r c] l]. intros [Hlen _] Hn. simpl in *.
  unfold slice_rows. simpl. rewrite take_ge by lia.
  now rewrite Nat.min_r by lia.
Qed.

Lemma slice_cols_ge {A} (n : nat) (a : ndarray A) :
  wf a -> snd (shape a) <= n -> slice_cols n a = a.
Proof.
  destruct a as [[r c] l]. intros [_ Hrows] Hn. simpl in *.
  unfold slice_cols. simpl. rewrite Nat.min_r by lia. f_equal.
  rewrite <- (list_fmap_id l) at 2. apply Forall_fmap_ext_1.
  eapply Forall_impl; [exact Hrows|]. intros row Hrow. simpl in *.
  apply take_ge. lia.
Qed.

(** The [if s1 != s2] block crops both arrays to the smaller extent in
    each dimension, from index 0. *)
Lemma clip_to_smallest_crop (dsm_arr dtm_arr : ndarray pix) :
  wf dsm_arr -> wf dtm_arr ->
  let r := Nat.min (fst (shape dsm_arr)) (fst (shape dtm_arr)) in
  let c := Nat.min (snd (shape dsm_arr)) (snd (shape dtm_arr)) in
  clip_to_smallest dsm_arr dtm_arr = (crop r c dsm_arr, crop r c dtm_arr).
Proof.
  intros Hs Ht r c. subst r c. unfold clip_to_smallest, crop.
  destruct (shape_eqb (shape dsm_arr) (shape dtm_arr)) eqn:Heq; simpl.
  - apply shape_eqb_eq in Heq. rewrite Heq, !Nat.min_id.
    rewrite !(slice_rows_ge _ _) by (assumption || (rewrite ?Heq; lia)).
    rewrite !(slice_cols_ge _ _) by (assumption || (rewrite ?Heq; lia)).
    reflexivity.
  - destruct (Nat.ltb_spec (fst (shape dtm_arr)) (fst (shape dsm_arr)));
      [|destruct (Nat.ltb_spec (fst (shape dsm_arr)) (fst (shape dtm_arr)))];
      (destruct (Nat.ltb_spec (snd (shape dtm_arr)) (snd (shape dsm_arr)));
       [|destruct (Nat.ltb_spec (snd (shape dsm_arr)) (snd (shape dtm_arr)))]);
      simpl;
      repeat match goal with
             | |- context [Nat.min ?a ?b] =>
                 first [ rewrite (Nat.min_l a b) by lia
                       | rewrite (Nat.min_r a b) by lia ]
             end;
      f_equal;
      repeat first
        [ rewrite (slice_rows_ge _ dsm_arr) by (assumption || lia)
        | rewrite (slice_rows_ge _ dtm_arr) by (assumption || lia)
        | rewrite (slice_cols_ge _ dsm_arr) by (assumption || lia)
        | rewrite (slice_cols_ge _ dtm_arr) by (assumption || lia)
        | rewrite (slice_cols_ge _ (slice_rows _ _))
            by (auto using wf_slice_rows || (simpl; lia)) ];
      try reflexivity.
Qed.

Lemma cell_crop {A} (r c : nat) (a : ndarray A) (i j : nat) :
  cell (crop r c a) i j = if decide (i < r /\ j < c) then cell a i j else None.
Proof.
  unfold crop, cell. simpl. rewrite list_lookup_fmap, lookup_take.
  destruct (decide (i < r)) as [Hi|Hi]; simpl.
  - destruct (rows a !! i) as [row|]; simpl.
    + rewrite lookup_take. destruct (decide (j < c)).
      * now rewrite decide_True.
      * rewrite decide_False; [reflexivity | tauto].
    + now destruct (decide _).
  - rewrite decide_False; [reflexivity | tauto].
Qed.

Lemma wf_crop {A} (r c : nat) (a : ndarray A) : wf a -> wf (crop r c a).
Proof. intros Ha. now apply wf_slice_cols, wf_slice_rows. Qed.

Lemma shape_crop {A} (r c : nat) (a : ndarray A) :
  shape (crop r c a) = (Nat.min r (fst (shape a)), Nat.min c (snd (shape a))).
Proof. reflexivity. Qed.

Lemma cell_same_shape {A B} (a : ndarray A) (b : ndarray B) (i j : nat) :
  wf a -> wf b -> shape a = shape b ->
  is_Some (cell a i j) <-> is_Some (cell b i j).
Proof.
  intros Ha Hb Hs. rewrite (cell_is_Some a), (cell_is_Some b) by assumption.
  now rewrite Hs.
Qed.

End Chm.

Section ChmProofs.
Import Numpy.
Local Open Scope nat_scope.
Context {pix : Type} {P : Pixel pix} {E : External pix}.

(** What [chm_array] computes, cell by cell. *)
Lemma chm_array_Return (dtm_img dsm_img : raster pix) :
  wf (band dtm_img) -> wf (band dsm_img) ->
  exists arr,
    chm_array dtm_img dsm_img = Return arr /\ wf arr /\
    shape arr =
      (Nat.min (fst (shape (band dsm_img))) (fst (shape (band dtm_img))),
       Nat.min (snd (shape (band dsm_img))) (snd (shape (band dtm_img)))) /\
    forall i j,
      cell arr i j =
        match cell (band dtm_img) i j, cell (band dsm_img) i j with
        | Some x, Some y =>
            Some (chm_cell (NoDataValue dtm_img) (NoDataValue dsm_img) x y)
        | _, _ => None
        end.
Proof.
  intros Ht Hs. unfold chm_array.
  rewrite (clip_to_smallest_crop _ _ Hs Ht).
  set (r := Nat.min (fst (shape (band dsm_img))) (fst (shape (band dtm_img)))).
  set (c := Nat.min (snd (shape (band dsm_img))) (snd (shape (band dtm_img)))).
  set (dsm' := crop r c (band dsm_img)).
  set (dtm' := crop r c (band dtm_img)).
  assert (wf dsm') as Hwfs by now apply wf_crop.
  assert (wf dtm') as Hwft by now apply wf_crop.
  assert (shape dsm' = (r, c)) as Hshs.
  { subst dsm'. rewrite shape_crop. f_equal; lia. }
  assert (shape dtm' = (r, c)) as Hsht.
  { subst dtm'. rewrite shape_crop. f_equal; lia. }
  destruct (elementwise_Return psub dsm' dtm' Hwfs Hwft) as (arr0 & H0 & Hs0 & Hwf0);
    [congruence|].
  rewrite H0. simpl. unfold setitem_mask.
  rewrite (proj2 (shape_eqb_eq _ _))
    by (rewrite Hs0, Hshs, <- Hsht; reflexivity).
  destruct (setitem_scalar_Return
              (numpy_where (map_cells (fun x => peqb x (NoDataValue dtm_img)) dtm'))
              arr0 (NoDataValue dtm_img))
    as (arr1 & H1 & Hs1 & Hwf1 & Hc1).
  { eapply Forall_impl; [apply where_map_cells_in_range|].
    intros ij Hin.
    apply (in_range_same_shape arr0 dtm');
      [assumption | assumption | congruence | exact Hin]. }
  rewrite H1. simpl.
  destruct (setitem_scalar_Return
              (numpy_where (map_cells (fun x => peqb x (NoDataValue dsm_img)) dsm'))
              arr1 (NoDataValue dtm_img))
    as (arr2 & H2 & Hs2 & Hwf2 & Hc2).
  { eapply Forall_impl; [apply where_map_cells_in_range|].
    intros ij Hin.
    apply (in_range_same_shape arr1 dsm');
      [auto | assumption | congruence | exact Hin]. }
  exists arr2. split; [assumption|]. split; [auto|]. split; [congruence|].
  intros i j. rewrite Hc2, Hc1, (cell_elementwise _ _ _ _ _ _ H0).
  assert (cell dsm' i j =
          if decide (i < r /\ j < c) then cell (band dsm_img) i j else None)
    as Hcs by apply cell_crop.
  assert (cell dtm' i j =
          if decide (i < r /\ j < c) then cell (band dtm_img) i j else None)
    as Hct by apply cell_crop.
  assert ((i, j) ∈ numpy_where
              (map_cells (fun x => peqb x (NoDataValue dsm_img)) dsm') <->
          exists y, cell dsm' i j = Some y /\ peqb y (NoDataValue dsm_img) = true)
    as Hms by apply elem_of_where_map_cells.
  assert ((i, j) ∈ numpy_where
              (map_cells (fun x => peqb x (NoDataValue dtm_img)) dtm') <->
          exists x, cell dtm' i j = Some x /\ peqb x (NoDataValue dtm_img) = true)
    as Hmt by apply elem_of_where_map_cells.
  destruct (decide (i < r /\ j < c)) as [Hin|Hout].
  - assert (is_Some (cell (band dsm_img) i j)) as [y Hy]
      by (apply cell_is_Some; [assumption | lia]).
    assert (is_Some (cell (band dtm_img) i j)) as [x Hx]
      by (apply cell_is_Some; [assumption | lia]).
    rewrite Hx, Hy. rewrite Hx in Hct. rewrite Hy in Hcs.
    rewrite Hcs in Hms |- *. rewrite Hct in Hmt |- *. unfold chm_cell.
    destruct (peqb x (NoDataValue dtm_img)) eqn:Hpx;
      destruct (peqb y (NoDataValue dsm_img)) eqn:Hpy; simpl;
      repeat match goal with
             | |- context [decide ?Q] =>
                 let Hq := fresh "Hq" in
                 destruct (decide Q) as [Hq|Hq];
                 [ try (first [apply Hms in Hq | apply Hmt in Hq];
                        destruct Hq as (? & [= <-] & ?); congruence)
                 | try solve [exfalso; apply Hq;
                              first [apply Hms | apply Hmt]; eauto] ]
             end; reflexivity.
  - rewrite Hcs in Hms |- *. rewrite Hct in Hmt. rewrite ?Hct.
    rewrite decide_False
      by (intros Hq; apply Hms in Hq as (z & Hz & _); discriminate).
    rewrite decide_False
      by (intros Hq; apply Hmt in Hq as (z & Hz & _); discriminate).
    destruct (cell (band dtm_img) i j) as [x|] eqn:Hx; [|reflexivity].
    destruct (cell (band dsm_img) i j) as [y|] eqn:Hy; [|reflexivity].
    exfalso. apply Hout.
    assert (is_Some (cell (band dtm_img) i j)) as Hx' by eauto.
    assert (is_Some (cell (band dsm_img) i j)) as Hy' by eauto.
    apply cell_is_Some in Hx'; [|assumption].
    apply cell_is_Some in Hy'; [|assumption]. lia.
Qed.

End ChmProofs.

Section ChmTheorems.
Import Numpy.
Local Open Scope nat_scope.
Context {pix : Type} {P : Pixel pix} {E : External pix} {G : Gippy pix}.

(** An array of the image's extent is stored as it is. *)
Lemma stored_band_same (ext : nat * nat) (arr : ndarray pix) :
  shape arr = ext -> stored_band ext arr = arr.
Proof.
  intros <-. unfold stored_band.
  now rewrite (proj2 (shape_eqb_eq _ _) eq_refl).
Qed.


(** One run of [create_chm] on two existing images. *)
Lemma create_chm_run (dtm dsm chm : string) (w : World pix)
    (dtm_img dsm_img : raster pix) (arr : ndarray pix) :
  files w !! dtm = Some dtm_img -> files w !! dsm = Some dsm_img ->
  chm_array dtm_img dsm_img = Return arr ->
  create_chm dtm dsm chm w =
    (Return chm,
     {| files := <[chm := {| NoDataValue := NoDataValue dtm_img;
                             band := stored_band (shape (band dtm_img)) arr |}]>
                   (files w);
        opened := dsm :: dtm :: opened w;
        commands := commands w |}).
Proof.
  intros Ht Hs Harr.
  unfold create_chm, mbind, M_bind, GeoImage, lift, WriteBand, Write.
  rewrite Ht. simpl. rewrite Hs. simpl. now rewrite Harr.
Qed.

(** C1. For a DTM and a DSM of equal extent, [create_chm] writes a
    raster of that extent whose nodata value is the DTM's (not the
    DSM's), and whose value at each cell is the DSM value minus the DTM
    value, except that a cell where the DTM equals the DTM's nodata
    value, or the DSM equals the DSM's nodata value, holds the
    output's nodata value. *)
Theorem create_chm_equal_extent (dtm dsm chm : string) (w : World pix)
    (dtm_img dsm_img : raster pix) :
  files w !! dtm = Some dtm_img -> files w !! dsm = Some dsm_img ->
  wf (band dtm_img) -> wf (band dsm_img) ->
  shape (band dsm_img) = shape (band dtm_img) ->
  exists out,
    fst (create_chm dtm dsm chm w) = Return chm /\
    files (snd (create_chm dtm dsm chm w)) !! chm = Some out /\
    NoDataValue out = NoDataValue dtm_img /\
    shape (band out) = shape (band dtm_img) /\
    forall i j, i < fst (shape (band dtm_img)) -> j < snd (shape (band dtm_img)) ->
      exists x y,
        cell (band dtm_img) i j = Some x /\ cell (band dsm_img) i j = Some y /\
        cell (band out) i j =
          Some (if peqb x (NoDataValue dtm_img) || peqb y (NoDataValue dsm_img)
                then NoDataValue out
                else psub y x).
Proof.
  intros Hft Hfs Ht Hs Hshape.
  destruct (chm_array_Return dtm_img dsm_img Ht Hs)
    as (arr & Harr & Hwf & Hsh & Hcell).
  assert (shape arr = shape (band dtm_img)) as Hsame.
  { rewrite Hsh, Hshape, !Nat.min_id. now destruct (shape (band dtm_img)). }
  rewrite (create_chm_run _ _ _ _ _ _ _ Hft Hfs Harr). simpl.
  rewrite (stored_band_same _ _ Hsame).
  eexists. split; [reflexivity|]. split; [apply lookup_insert_eq|]. simpl.
  split; [reflexivity|]. split.
  - exact Hsame.
  - intros i j Hi Hj.
    assert (is_Some (cell (band dtm_img) i j)) as [x Hx]
      by now apply cell_is_Some.
    assert (is_Some (cell (band dsm_img) i j)) as [y Hy]
      by (apply cell_is_Some; [assumption | now rewrite Hshape]).
    exists x, y. split; [assumption|]. split; [assumption|].
    now rewrite Hcell, Hx, Hy.
Qed.


End ChmTheorems.

Lemma wf_sample_dtm_r1 : Numpy.wf (band Sample.dtm_r1).
Proof. split; [reflexivity | repeat constructor]. Qed.

Lemma wf_sample_dsm_r1 : Numpy.wf (band Sample.dsm_r1).
Proof. split; [reflexivity | repeat constructor]. Qed.


Example create_chm_sample :
  files (snd (create_chm (P := Sample.Z_pixel)
                "dtm_r1.idw.tif" "dsm_r1.idw.tif" "chm.tif" Sample.world))
    !! "chm.tif"
  = Some {| NoDataValue := Sample.nd;
            band := Sample.array 2 3 [[7; Sample.nd; Sample.nd];
                                      [Sample.nd; Sample.nd; 6]] |}.
Proof. reflexivity. Qed.

Example create_chm_sample_cropped :
  chm_array (P := Sample.Z_pixel) Sample.dtm_r1 Sample.dsm_big
  = Return (Sample.array 2 2 [[7; Sample.nd]; [Sample.nd; Sample.nd]]).
Proof. reflexivity. Qed.

Lemma create_chm_equal_extent_witness :
  exists out,
    fst (create_chm (P := Sample.Z_pixel)
           "dtm_r1.idw.tif" "dsm_r1.idw.tif" "chm.tif" Sample.world)
      = Return "chm.tif" /\
    files (snd (create_chm (P := Sample.Z_pixel)
                  "dtm_r1.idw.tif" "dsm_r1.idw.tif" "chm.tif" Sample.world))
      !! "chm.tif" = Some out /\
    NoDataValue out = Sample.nd /\
    Numpy.shape (band out) = (2%nat, 3%nat) /\
    forall i j, (i < 2)%nat -> (j < 3)%nat ->
      exists x y,
        Numpy.cell (band Sample.dtm_r1) i j = Some x /\
        Numpy.cell (band Sample.dsm_r1) i j = Some y /\
        Numpy.cell (band out) i j =
          Some (if (x =? Sample.nd) || (y =? -1) then NoDataValue out
                else y - x).
Proof.
  apply (create_chm_equal_extent (P := Sample.Z_pixel)
           "dtm_r1.idw.tif" "dsm_r1.idw.tif" "chm.tif" Sample.world
           Sample.dtm_r1 Sample.dsm_r1).
  - reflexivity.
  - reflexivity.
  - exact wf_sample_dtm_r1.
  - exact wf_sample_dsm_r1.
  - reflexivity.
Defined.




(* ===================================================================== *)
(** ** Gap filling *)
(* ===================================================================== *)

Lemma insert_sorted_perm (x : string) (l : list string) :
  insert_sorted x l ≡ₚ x :: l.
Proof.
  induction l as [|y l IH]; simpl; [reflexivity|].
  destruct (String.leb x y); [reflexivity|].
  rewrite IH. apply Permutation_swap.
Qed.

Lemma sorted_perm (l : list string) : sorted l ≡ₚ l.
Proof.
  induction l as [|x l IH]; simpl; [reflexivity|].
  now rewrite insert_sorted_perm, IH.
Qed.

Lemma insert_sorted_HdRel (a x : string) (l : list string) :
  str_le a x -> HdRel str_le a l -> HdRel str_le a (insert_sorted x l).
Proof.
  intros Hax Hal. destruct l as [|y l]; simpl; [now constructor|].
  destruct (String.leb x y); constructor; [assumption|].
  now inversion Hal.
Qed.

Lemma insert_sorted_Sorted (x : string) (l : list string) :
  Sorted str_le l -> Sorted str_le (insert_sorted x l).
Proof.
  induction 1 as [|y l Hl IH Hy]; simpl; [repeat constructor|].
  destruct (String.leb x y) eqn:Hxy.
  - constructor; [now constructor|]. now constructor.
  - constructor; [assumption|]. apply insert_sorted_HdRel; [|assumption].
    destruct (String.leb_total x y) as [H|H]; [congruence | exact H].
Qed.

Lemma sorted_Sorted (l : list string) : Sorted str_le (sorted l).
Proof.
  induction l as [|x l IH]; simpl; [constructor|].
  now apply insert_sorted_Sorted.
Qed.

Example sorted_radii :
  sorted ["dtm_r3.idw.tif"; "dtm_r1.idw.tif"; "dtm_r2.idw.tif"]
  = ["dtm_r1.idw.tif"; "dtm_r2.idw.tif"; "dtm_r3.idw.tif"].
Proof. reflexivity. Qed.

(** The lexical order is not the numeric one: radius 10 sorts before
    radius 2. *)
Example sorted_radius_ten :
  sorted ["dtm_r2.idw.tif"; "dtm_r10.idw.tif"]
  = ["dtm_r10.idw.tif"; "dtm_r2.idw.tif"].
Proof. reflexivity. Qed.

Section FrameFacts.
Import Numpy.
Context {A : Type}.

Lemma set_cell_in_range (a a' : ndarray A) ij v :
  set_cell a ij v = Return a' -> in_range a ij.
Proof.
  unfold set_cell, in_range. destruct (cell a (fst ij) (snd ij)); [eauto|].
  discriminate.
Qed.

Lemma set_cell_frame (a a' : ndarray A) ij v :
  set_cell a ij v = Return a' ->
  shape a' = shape a /\
  forall i j, (i, j) <> ij -> cell a' i j = cell a i j.
Proof.
  intros Hset. pose proof (set_cell_in_range _ _ _ _ Hset) as Hin.
  destruct (set_cell_Return a ij v Hin) as (a1 & Hset1 & Hs & _ & Hc).
  assert (a1 = a') as -> by congruence.
  split; [assumption|]. intros i j Hne. rewrite Hc.
  now rewrite decide_False.
Qed.

Lemma setitem_scalar_frame locs : forall (a a' : ndarray A) v,
  setitem_scalar a locs v = Return a' ->
  shape a' = shape a /\
  forall i j, (i, j) ∉ locs -> cell a' i j = cell a i j.
Proof.
  induction locs as [|ij locs IH]; intros a a' v; simpl.
  - intros [= <-]. auto.
  - destruct (set_cell a ij v) as [a1|] eqn:Hset; [|discriminate]. simpl.
    intros Hrec. destruct (set_cell_frame _ _ _ _ Hset) as [Hs1 Hc1].
    destruct (IH _ _ _ Hrec) as [Hs Hc]. split; [congruence|].
    intros i j Hnel. rewrite Hc, Hc1; [reflexivity| |].
    + intros <-. apply Hnel. now left.
    + intros Hel. apply Hnel. now right.
Qed.

Lemma assign_frame locs : forall (a a' : ndarray A) vals,
  assign a locs vals = Return a' ->
  shape a' = shape a /\
  forall i j, (i, j) ∉ locs -> cell a' i j = cell a i j.
Proof.
  induction locs as [|ij locs IH]; intros a a' vals; simpl.
  - intros [= <-]. auto.
  - destruct vals as [|v vals]; [discriminate|].
    destruct (set_cell a ij v) as [a1|] eqn:Hset; [|discriminate]. simpl.
    intros Hrec. destruct (set_cell_frame _ _ _ _ Hset) as [Hs1 Hc1].
    destruct (IH _ _ _ Hrec) as [Hs Hc]. split; [congruence|].
    intros i j Hnel. rewrite Hc, Hc1; [reflexivity| |].
    + intros <-. apply Hnel. now left.
    + intros Hel. apply Hnel. now right.
Qed.

(** [a[locs] = vals] leaves every cell outside [locs] as it was,
    whatever [vals] is. *)
Lemma setitem_frame locs (a a' : ndarray A) vals :
  setitem a locs vals = Return a' ->
  shape a' = shape a /\
  forall i j, (i, j) ∉ locs -> cell a' i j = cell a i j.
Proof.
  unfold setitem. destruct vals as [|v [|v' vals]].
  - destruct (Nat.eqb _ _); [apply assign_frame | discriminate].
  - apply setitem_scalar_frame.
  - destruct (Nat.eqb _ _); [apply assign_frame | discriminate].
Qed.

End FrameFacts.

Section GapFillFacts.
Import Numpy.
Context {pix : Type} {P : Pixel pix} {E : External pix}.

Lemma elem_of_badlocs (nodata : pix) (arr : ndarray pix) (i j : nat) :
  (i, j) ∈ badlocs nodata arr <->
  exists x, cell arr i j = Some x /\ peqb x nodata = true.
Proof. apply elem_of_where_map_cells. Qed.

Lemma fill_cell_valid (nodata a : pix) (vs : list pix) :
  peqb a nodata = false -> fill_cell nodata a vs = a.
Proof.
  intros Ha. unfold fill_cell. induction vs as [|v vs IH]; simpl;
    [reflexivity | now rewrite Ha].
Qed.

Lemma fill_cell_first_valid (nodata : pix) (vs : list pix) : forall a,
  match first_valid nodata (a :: vs) with
  | Some v => fill_cell nodata a vs = v
  | None => peqb (fill_cell nodata a vs) nodata = true
  end.
Proof.
  induction vs as [|v vs IH]; intros a.
  - simpl. destruct (peqb a nodata); reflexivity.
  - change (first_valid nodata (a :: v :: vs))
      with (if peqb a nodata then first_valid nodata (v :: vs) else Some a).
    destruct (peqb a nodata) eqn:Ha.
    + unfold fill_cell. simpl. rewrite Ha. apply IH.
    + now apply fill_cell_valid.
Qed.

(** One turn of the loop: the cells of the accumulator equal to
    [nodata], and only those, take the image's value. *)
Lemma fill_from_step (nodata : pix) (arr : ndarray pix) (img : raster pix)
    (imgs : list (raster pix)) :
  wf arr -> wf (band img) -> shape (band img) = shape arr ->
  exists arr',
    fill_from nodata arr (img :: imgs) = fill_from nodata arr' imgs /\
    wf arr' /\ shape arr' = shape arr /\
    forall i j,
      cell arr' i j =
        match cell arr i j with
        | Some a => if peqb a nodata then cell (band img) i j else Some a
        | None => None
        end.
Proof.
  intros Hwf Hwfi Hsh. simpl.
  assert (Forall (in_range arr) (badlocs nodata arr)) as Hin
    by apply where_map_cells_in_range.
  destruct (getitem_Return (band img) (badlocs nodata arr))
    as (vals & Hget & Hlen).
  { eapply Forall_impl; [exact Hin|]. intros ij Hij.
    apply (in_range_same_shape (band img) arr); auto. }
  rewrite Hget. simpl. rewrite (setitem_assign _ _ _ Hlen).
  destruct (assign_getitem (band img) _ arr vals Hin Hget)
    as (arr' & Hasg & Hs' & Hwf' & Hc').
  exists arr'. rewrite Hasg. simpl. split; [reflexivity|].
  split; [auto|]. split; [assumption|].
  intros i j. rewrite Hc'.
  destruct (decide ((i, j) ∈ badlocs nodata arr)) as [Hel|Hnel].
  - apply elem_of_badlocs in Hel as (x & -> & ->). reflexivity.
  - destruct (cell arr i j) as [a|] eqn:Ha; [|reflexivity].
    destruct (peqb a nodata) eqn:Hp; [|reflexivity].
    exfalso. apply Hnel. apply elem_of_badlocs. eauto.
Qed.

(** The whole loop, cell by cell. *)
Lemma fill_from_Return (nodata : pix) (imgs : list (raster pix)) :
  forall arr, wf arr -> same_shape arr imgs ->
  exists merged,
    fill_from nodata arr imgs = Return merged /\ wf merged /\
    shape merged = shape arr /\
    forall i j a, cell arr i j = Some a ->
      exists vs,
        Forall2 (fun r v => cell (band r) i j = Some v) imgs vs /\
        cell merged i j = Some (fill_cell nodata a vs).
Proof.
  induction imgs as [|img imgs IH]; intros arr Hwf Hsame.
  - exists arr. split; [reflexivity|]. split; [assumption|].
    split; [reflexivity|]. intros i j a Ha. exists []. split; [constructor|].
    exact Ha.
  - apply Forall_cons in Hsame as [[Hwfi Hshi] Hsame].
    destruct (fill_from_step nodata arr img imgs Hwf Hwfi Hshi)
      as (arr' & Hstep & Hwf' & Hs' & Hc').
    destruct (IH arr' Hwf') as (merged & Hm & Hwfm & Hsm & Hcm).
    { eapply Forall_impl; [exact Hsame|]. intros r [? ?]. split; congruence. }
    exists merged. rewrite Hstep. split; [assumption|]. split; [assumption|].
    split; [congruence|]. intros i j a Ha.
    assert (is_Some (cell (band img) i j)) as [v Hv].
    { apply (cell_same_shape arr (band img)); eauto. }
    specialize (Hc' i j). rewrite Ha, Hv in Hc'.
    destruct (Hcm i j (if peqb a nodata then v else a)) as (vs & Hvs & Hcell).
    { rewrite Hc'. now destruct (peqb a nodata). }
    exists (v :: vs). split; [now constructor|]. exact Hcell.
Qed.

(** The interpolation step, when [griddata] answers. *)
Lemma interpolate_Return (nodata : pix) (arr : ndarray pix)
    (interpolation : string) (vals : list pix) :
  wf arr -> griddata_answers nodata arr interpolation vals ->
  exists out,
    interpolate nodata arr interpolation = Return out /\ wf out /\
    shape out = shape arr /\
    (forall i j, (i, j) ∉ badlocs nodata arr -> cell out i j = cell arr i j) /\
    (forall k i j, badlocs nodata arr !! k = Some (i, j) ->
                   cell out i j = vals !! k).
Proof.
  intros Hwf (known & Hget & Hgrid & Hlen). unfold interpolate.
  rewrite Hget. simpl. rewrite Hgrid. simpl.
  rewrite (setitem_assign _ _ _ Hlen).
  destruct (assign_Return (badlocs nodata arr) arr vals)
    as (out & Hasg & Hs & Hwfo & Hout & Hat).
  - apply where_map_cells_in_range.
  - apply NoDup_numpy_where.
  - exact Hlen.
  - exists out. auto.
Qed.

Lemma GeoImages_run (filenames : list string) :
  forall (imgs : list (raster pix)) (w : World pix),
  Forall2 (fun f r => files w !! f = Some r) filenames imgs ->
  GeoImages filenames w =
    (Return imgs, {| files := files w;
                     opened := (rev filenames ++ opened w)%list;
                     commands := commands w |}).
Proof.
  induction filenames as [|f fs IH]; intros imgs w Hall.
  - inversion Hall. destruct w. reflexivity.
  - inversion Hall as [|? r ? imgs' Hf Hrest]; subst.
    simpl. unfold mbind, M_bind, GeoImage at 1. rewrite Hf.
    rewrite (IH imgs').
    + simpl. now rewrite <- app_assoc.
    + exact Hrest.
Qed.

(** One run of [gap_fill] without a site. *)
Lemma gap_fill_run (filenames : list string) (fout interpolation : string)
    (w : World pix) (imgs : list (raster pix)) (imgout : raster pix) :
  filenames <> [] ->
  Forall2 (fun f r => files w !! f = Some r) (sorted filenames) imgs ->
  gap_fill_image imgs interpolation = Return imgout ->
  gap_fill filenames fout None interpolation w =
    (Return fout,
     {| files := <[fout := imgout]> (files w);
        opened := (rev (sorted filenames) ++ opened w)%list;
        commands := commands w |}).
Proof.
  intros Hne Hall Himg. unfold gap_fill.
  destruct filenames as [|f fs]; [congruence|].
  change (Nat.eqb (length (f :: fs)) 0) with false. cbv iota.
  unfold mbind at 1, M_bind at 1. rewrite (GeoImages_run _ _ _ Hall).
  unfold mbind, M_bind, lift, Write. now rewrite Himg.
Qed.

End GapFillFacts.

Section GapFillTheorems.
Import Numpy.
Context {pix : Type} {P : Pixel pix} {E : External pix}.

Lemma first_valid_Some (nodata : pix) (vs : list pix) (v : pix) :
  first_valid nodata vs = Some v -> peqb v nodata = false.
Proof.
  induction vs as [|x vs IH]; simpl; [discriminate|].
  destruct (peqb x nodata) eqn:Hx; [assumption|]. now intros [= <-].
Qed.

(** The interpolation step leaves the valid cells alone, whatever
    [griddata] returns. *)
Lemma interpolate_frame (nodata : pix) (arr out : ndarray pix)
    (interpolation : string) :
  interpolate nodata arr interpolation = Return out ->
  shape out = shape arr /\
  forall i j x, cell arr i j = Some x -> peqb x nodata = false ->
                cell out i j = Some x.
Proof.
  unfold interpolate.
  destruct (getitem arr (goodlocs nodata arr)) as [known|]; [|discriminate].
  simpl. destruct (griddata _ _ _ _) as [vals|]; [|discriminate]. simpl.
  intros [Hs Hc]%setitem_frame. split; [assumption|].
  intros i j x Hx Hvalid. rewrite Hc; [assumption|].
  rewrite elem_of_badlocs. intros (x' & Hx' & Hbad). congruence.
Qed.

(** C6. On a list of one raster, [gap_fill] writes a raster that has,
    at every cell whose value is not equal to the nodata value, the
    value the input has there: only nodata cells are altered, by the
    interpolation.  This holds of every run that returns, and a run
    returns when [griddata] answers with one value per nodata cell. *)
Theorem gap_fill_single_keeps_valid (filename fout interpolation : string)
    (w : World pix) (img : raster pix) :
  files w !! filename = Some img ->
  (forall ret w',
     gap_fill [filename] fout None interpolation w = (Return ret, w') ->
     exists out,
       ret = fout /\ files w' !! fout = Some out /\
       NoDataValue out = NoDataValue img /\
       shape (band out) = shape (band img) /\
       forall i j x,
         cell (band img) i j = Some x -> peqb x (NoDataValue img) = false ->
         cell (band out) i j = Some x) /\
  (wf (band img) ->
   forall vals,
     griddata_answers (NoDataValue img) (band img) interpolation vals ->
     exists w', gap_fill [filename] fout None interpolation w
                = (Return fout, w')).
Proof.
  intros Hfile.
  assert (Forall2 (fun f r => files w !! f = Some r) (sorted [filename]) [img])
    as Hall by (repeat constructor; exact Hfile).
  split.
  - intros ret w' Hrun.
    destruct (gap_fill_image [img] interpolation) as [out|e] eqn:Himg.
    + rewrite (gap_fill_run [filename] fout interpolation w [img] out)
        in Hrun by (congruence || assumption).
      injection Hrun as <- <-. exists out. split; [reflexivity|].
      split; [apply lookup_insert_eq|].
      simpl in Himg.
      destruct (interpolate _ _ _) as [arr|] eqn:Hint; [|discriminate].
      injection Himg as <-. simpl.
      destruct (interpolate_frame _ _ _ _ Hint) as [Hs Hc]. auto.
    + exfalso. revert Hrun. unfold gap_fill. cbn [length Nat.eqb].
      unfold mbind at 1, M_bind at 1. rewrite (GeoImages_run _ _ _ Hall).
      unfold mbind, M_bind, lift. rewrite Himg. discriminate.
  - intros Hwf vals Hans.
    destruct (interpolate_Return _ _ _ _ Hwf Hans) as (arr & Hint & _).
    eexists. apply (gap_fill_run [filename] fout interpolation w [img]);
      [discriminate | exact Hall |].
    simpl. rewrite Hint. reflexivity.
Qed.

(** C2. [gap_fill] opens the rasters in the lexically ascending order
    of their names and starts from the first; each later raster
    overwrites exactly the cells of the accumulator still equal to the
    nodata value, with its own value at the same cell; so a cell of the
    result holds the value of the first raster that is valid there, or
    the interpolated value when none is: for three rasters A, B, C, A
    where A is valid, else B where B is valid, else C where C is valid,
    else the interpolated value. *)
Theorem gap_fill_first_writer_wins (filenames : list string)
    (fout interpolation : string) (w : World pix)
    (img0 : raster pix) (rest : list (raster pix)) :
  filenames <> [] ->
  Forall2 (fun f r => files w !! f = Some r) (sorted filenames) (img0 :: rest) ->
  wf (band img0) -> same_shape (band img0) rest ->
  (forall merged,
     fill_from (NoDataValue img0) (band img0) rest = Return merged ->
     exists vals,
       griddata_answers (NoDataValue img0) merged interpolation vals) ->
  let nodata := NoDataValue img0 in
  Sorted str_le (sorted filenames) /\
  sorted filenames ≡ₚ filenames /\
  (forall arr img imgs,
     wf arr -> wf (band img) -> shape (band img) = shape arr ->
     exists arr',
       fill_from nodata arr (img :: imgs) = fill_from nodata arr' imgs /\
       forall i j,
         cell arr' i j =
           match cell arr i j with
           | Some a => if peqb a nodata then cell (band img) i j else Some a
           | None => None
           end) /\
  exists merged vals out,
    fill_from nodata (band img0) rest = Return merged /\
    griddata_answers nodata merged interpolation vals /\
    gap_fill filenames fout None interpolation w =
      (Return fout,
       {| files := <[fout := out]> (files w);
          opened := (rev (sorted filenames) ++ opened w)%list;
          commands := commands w |}) /\
    NoDataValue out = nodata /\
    shape (band out) = shape (band img0) /\
    (forall i j a, cell (band img0) i j = Some a ->
       exists vs,
         Forall2 (fun r v => cell (band r) i j = Some v) rest vs /\
         match first_valid nodata (a :: vs) with
         | Some v => cell (band out) i j = Some v
         | None =>
             exists k, badlocs nodata merged !! k = Some (i, j) /\
                       cell (band out) i j = vals !! k /\
                       is_Some (vals !! k)
         end) /\
    (forall B C, rest = [B; C] ->
       forall i j a b c,
         cell (band img0) i j = Some a -> cell (band B) i j = Some b ->
         cell (band C) i j = Some c ->
         if negb (peqb a nodata) then cell (band out) i j = Some a
         else if negb (peqb b nodata) then cell (band out) i j = Some b
         else if negb (peqb c nodata) then cell (band out) i j = Some c
         else exists k, badlocs nodata merged !! k = Some (i, j) /\
                        cell (band out) i j = vals !! k /\
                        is_Some (vals !! k)).
Proof.
  intros Hne Hall Hwf Hsame Hgrid nodata.
  split; [apply sorted_Sorted|]. split; [apply sorted_perm|]. split.
  { intros arr img imgs Ha Hi Hs.
    destruct (fill_from_step nodata arr img imgs Ha Hi Hs)
      as (arr' & Hstep & _ & _ & Hc). eauto. }
  destruct (fill_from_Return nodata rest (band img0) Hwf Hsame)
    as (merged & Hm & Hwfm & Hsm & Hcm).
  destruct (Hgrid merged Hm) as (vals & Hans).
  destruct (interpolate_Return nodata merged interpolation vals Hwfm Hans)
    as (arr & Hint & Hwfo & Hso & Hout & Hat).
  assert (gap_fill_image (img0 :: rest) interpolation
          = Return {| NoDataValue := nodata; band := arr |}) as Himg.
  { simpl. fold nodata. rewrite Hm. simpl. now rewrite Hint. }
  assert (forall i j a, cell (band img0) i j = Some a ->
            exists vs,
              Forall2 (fun r v => cell (band r) i j = Some v) rest vs /\
              match first_valid nodata (a :: vs) with
              | Some v => cell arr i j = Some v
              | None =>
                  exists k, badlocs nodata merged !! k = Some (i, j) /\
                            cell arr i j = vals !! k /\ is_Some (vals !! k)
              end) as Hcells.
  { intros i j a Ha. destruct (Hcm i j a Ha) as (vs & Hvs & Hcell).
    exists vs. split; [assumption|].
    pose proof (fill_cell_first_valid nodata vs a) as Hfv.
    destruct (first_valid nodata (a :: vs)) as [v|] eqn:Hfirst.
    - rewrite Hfv in Hcell. apply first_valid_Some in Hfirst.
      rewrite Hout; [assumption|].
      rewrite elem_of_badlocs. intros (x & Hx & Hbad). congruence.
    - assert ((i, j) ∈ badlocs nodata merged) as Hel
        by (apply elem_of_badlocs; eauto).
      apply list_elem_of_lookup in Hel as [k Hk]. exists k.
      split; [assumption|]. split; [now apply Hat|].
      apply lookup_lt_is_Some. destruct Hans as (_ & _ & _ & ->).
      now apply lookup_lt_Some in Hk. }
  exists merged, vals, {| NoDataValue := nodata; band := arr |}.
  split; [assumption|]. split; [assumption|].
  split; [now apply (gap_fill_run _ _ _ _ (img0 :: rest))|].
  split; [reflexivity|].
  split; [simpl; congruence|]. split; [exact Hcells|].
  intros B C -> i j a b c Ha Hb Hc.
  destruct (Hcells i j a Ha) as (vs & Hvs & Hfv).
  inversion Hvs as [|? b' ? vs' HB Hvs']; subst.
  inversion Hvs' as [|? c' ? vs'' HC Hvs'']; subst.
  inversion Hvs''; subst.
  assert (b' = b) as -> by congruence. assert (c' = c) as -> by congruence.
  simpl in Hfv.
  destruct (peqb a nodata); simpl; [|exact Hfv].
  destruct (peqb b nodata); simpl; [|exact Hfv].
  destruct (peqb c nodata); simpl; exact Hfv.
Qed.

End GapFillTheorems.

Lemma same_shape_sample_rest :
  same_shape (band Sample.dtm_r1) [Sample.dtm_r2; Sample.dtm_r3].
Proof. repeat constructor. Qed.

Example gap_fill_sample :
  files (snd (gap_fill (P := Sample.Z_pixel) (E := Sample.tools)
                ["dtm_r3.idw.tif"; "dtm_r1.idw.tif"; "dtm_r2.idw.tif"]
                "dtm.tif" None "nearest" Sample.world)) !! "dtm.tif"
  = Some {| NoDataValue := Sample.nd;
            band := Sample.array 2 3 [[10; 21; 12]; [33; 21; 15]] |}.
Proof. reflexivity. Qed.

Example gap_fill_sample_single :
  files (snd (gap_fill (P := Sample.Z_pixel) (E := Sample.tools)
                ["dtm_r1.idw.tif"] "dtm.tif" None "nearest" Sample.world))
    !! "dtm.tif"
  = Some {| NoDataValue := Sample.nd;
            band := Sample.array 2 3 [[10; 10; 12]; [10; 15; 15]] |}.
Proof. reflexivity. Qed.

Lemma gap_fill_single_keeps_valid_witness :
  (exists out,
     files (snd (gap_fill (P := Sample.Z_pixel) (E := Sample.tools)
                   ["dtm_r1.idw.tif"] "dtm.tif" None "nearest" Sample.world))
       !! "dtm.tif" = Some out /\
     forall i j x,
       Numpy.cell (band Sample.dtm_r1) i j = Some x ->
       (x =? Sample.nd) = false ->
       Numpy.cell (band out) i j = Some x) /\
  (exists w', gap_fill (P := Sample.Z_pixel) (E := Sample.tools)
                ["dtm_r1.idw.tif"] "dtm.tif" None "nearest" Sample.world
              = (Return "dtm.tif", w')).
Proof.
  pose proof (gap_fill_single_keeps_valid (P := Sample.Z_pixel)
                (E := Sample.tools) "dtm_r1.idw.tif" "dtm.tif" "nearest"
                Sample.world Sample.dtm_r1 eq_refl) as [Hpartial Htotal].
  split.
  - destruct (Hpartial "dtm.tif"
                (snd (gap_fill (P := Sample.Z_pixel) (E := Sample.tools)
                        ["dtm_r1.idw.tif"] "dtm.tif" None "nearest"
                        Sample.world)) eq_refl)
      as (out & _ & Hout & _ & _ & Hcells).
    exists out. split; [exact Hout | exact Hcells].
  - apply (Htotal wf_sample_dtm_r1 [10; 10; 15]).
    exists [10; 12; 15]. repeat split.
Defined.

Lemma gap_fill_first_writer_wins_witness :
  exists out,
    gap_fill (P := Sample.Z_pixel) (E := Sample.tools)
      ["dtm_r3.idw.tif"; "dtm_r1.idw.tif"; "dtm_r2.idw.tif"]
      "dtm.tif" None "nearest" Sample.world
    = (Return "dtm.tif",
       {| files := <["dtm.tif" := out]> (files Sample.world);
          opened := ["dtm_r3.idw.tif"; "dtm_r2.idw.tif"; "dtm_r1.idw.tif"];
          commands := [] |}) /\
    NoDataValue out = Sample.nd /\
    forall i j a b c,
      Numpy.cell (band Sample.dtm_r1) i j = Some a ->
      Numpy.cell (band Sample.dtm_r2) i j = Some b ->
      Numpy.cell (band Sample.dtm_r3) i j = Some c ->
      if negb (a =? Sample.nd) then Numpy.cell (band out) i j = Some a
      else if negb (b =? Sample.nd) then Numpy.cell (band out) i j = Some b
      else if negb (c =? Sample.nd) then Numpy.cell (band out) i j = Some c
      else is_Some (Numpy.cell (band out) i j).
Proof.
  destruct (gap_fill_first_writer_wins (P := Sample.Z_pixel) (E := Sample.tools)
              ["dtm_r3.idw.tif"; "dtm_r1.idw.tif"; "dtm_r2.idw.tif"]
              "dtm.tif" "nearest" Sample.world
              Sample.dtm_r1 [Sample.dtm_r2; Sample.dtm_r3])
    as (_ & _ & _ & merged & vals & out & _ & _ & Hrun & Hnd & _ & _ & Habc).
  - discriminate.
  - repeat constructor.
  - exact wf_sample_dtm_r1.
  - exact same_shape_sample_rest.
  - intros merged Hm. injection Hm as <-.
    exists [21]. exists [10; 21; 12; 33; 15]. repeat split.
  - exists out. split; [exact Hrun|]. split; [exact Hnd|].
    intros i j a b c Ha Hb Hc.
    specialize (Habc _ _ eq_refl i j a b c Ha Hb Hc).
    change (@peqb Z Sample.Z_pixel) with Z.eqb in Habc.
    change (NoDataValue Sample.dtm_r1) with Sample.nd in Habc.
    destruct (negb (a =? Sample.nd)); [exact Habc|].
    destruct (negb (b =? Sample.nd)); [exact Habc|].
    destruct (negb (c =? Sample.nd)); [exact Habc|].
    destruct Habc as (k & _ & -> & Hk). exact Hk.
Defined.

(** C10. On the empty list [gap_fill] raises "No filenames provided!"
    and leaves the world as it was: no raster has been opened and none
    written.  It returns no result on the empty list: a run that returns
    was given at least one name. *)
Theorem gap_fill_no_filenames {pix : Type} {P : Pixel pix} {E : External pix}
    (fout : string) (site : option GeoFeature) (interpolation : string)
    (w : World pix) :
  gap_fill [] fout site interpolation w
    = (Raise (Exception "No filenames provided!"), w) /\
  (forall filenames ret w',
     gap_fill filenames fout site interpolation w = (Return ret, w') ->
     filenames <> []).
Proof.
  split; [reflexivity|].
  intros filenames ret w' Hrun ->. discriminate Hrun.
Qed.

Lemma gap_fill_no_filenames_witness :
  gap_fill (P := Sample.Z_pixel) (E := Sample.tools)
    [] "dtm.tif" (Some Sample.site) "nearest" Sample.world
    = (Raise (Exception "No filenames provided!"), Sample.world) /\
  ["dtm_r1.idw.tif"] <> [].
Proof.
  split.
  - apply (gap_fill_no_filenames (P := Sample.Z_pixel) (E := Sample.tools)).
  - apply (proj2 (gap_fill_no_filenames (P := Sample.Z_pixel)
                    (E := Sample.tools) "dtm.tif" None "nearest" Sample.world)
             ["dtm_r1.idw.tif"] "dtm.tif"
             (snd (gap_fill (P := Sample.Z_pixel) (E := Sample.tools)
                     ["dtm_r1.idw.tif"] "dtm.tif" None "nearest"
                     Sample.world))).
    reflexivity.
Defined.

(* ===================================================================== *)
(** ** More on names: extensions, hillshade and clip files *)
(* ===================================================================== *)

Lemma str_app_inv_head (a b c : string) : a +:+ b = a +:+ c -> b = c.
Proof.
  induction a as [|h a IH]; [trivial|].
  rewrite !str_app_cons. intros [= H]. now apply IH.
Qed.

Lemma str_mem_app (c : ascii) (a b : string) :
  str_mem c (a +:+ b) = str_mem c a || str_mem c b.
Proof.
  induction a as [|h a IH]; [reflexivity|].
  rewrite str_app_cons. simpl. now rewrite IH, orb_assoc.
Qed.

Lemma all_dots_app_false (a b : string) :
  all_dots a = false -> all_dots (a +:+ b) = false.
Proof.
  induction a as [|h a IH]; [discriminate|].
  rewrite str_app_cons. simpl.
  destruct (Ascii.eqb h "."); simpl; [exact IH | reflexivity].
Qed.

(** At the index [rfind] returns the string has the character. *)
Lemma rfind_from_drop (c : ascii) (p : string) (i : Z) :
  0 <= i -> 0 <= PosixPath.rfind_from i c p ->
  exists t,
    PosixPath.str_drop (Z.to_nat (PosixPath.rfind_from i c p - i)) p
    = String c t.
Proof.
  revert i. induction p as [|a p IH]; intros i Hi; simpl; [lia|].
  destruct (Z.leb_spec 0 (PosixPath.rfind_from (i + 1) c p)) as [Hr|Hr].
  - intros _. destruct (IH (i + 1)) as [t Ht]; [lia | assumption|].
    destruct (rfind_from_bounds c p (i + 1)) as [Hb|Hb]; [lia | lia |].
    exists t.
    replace (Z.to_nat (PosixPath.rfind_from (i + 1) c p - i))
      with (S (Z.to_nat (PosixPath.rfind_from (i + 1) c p - (i + 1))))
      by lia.
    exact Ht.
  - destruct (Ascii.eqb_spec a c) as [->|]; [|lia].
    intros _. rewrite Z.sub_diag. now exists p.
Qed.

Lemma skip_leading_dots_cases (n : nat) (p : string) (i d : nat) :
  PosixPath.skip_leading_dots n p i d = (p, "") \/
  PosixPath.skip_leading_dots n p i d
    = (PosixPath.str_take d p, PosixPath.str_drop d p).
Proof.
  revert i. induction n as [|n IH]; intros i; simpl; [now left|].
  destruct (String.get i p); [|now left].
  destruct (Ascii.eqb a "."); [apply IH | now right].
Qed.

(** The extension [os.path.splitext] returns is empty or starts with a
    dot. *)
Lemma splitext_ext_shape (p : string) :
  snd (PosixPath.splitext p) = "" \/
  exists t, snd (PosixPath.splitext p) = String "." t.
Proof.
  unfold PosixPath.splitext, PosixPath.rfind.
  destruct (Z.ltb_spec (PosixPath.rfind_from 0 "/" p)
                       (PosixPath.rfind_from 0 "." p)) as [Hlt|]; [|now left].
  destruct (skip_leading_dots_cases
              (Z.to_nat (PosixPath.rfind_from 0 "." p
                         - (PosixPath.rfind_from 0 "/" p + 1)))
              p (Z.to_nat (PosixPath.rfind_from 0 "/" p + 1))
              (Z.to_nat (PosixPath.rfind_from 0 "." p))) as [-> | ->];
    [now left | right]. simpl.
  destruct (rfind_from_bounds "/" p 0 (Z.le_refl 0)) as [Hs|Hs];
    (destruct (rfind_from_drop "." p 0) as [t Ht]; [lia | lia |]);
    rewrite Z.sub_0_r in Ht; eauto.
Qed.

Lemma splitexts_app (filename : string) :
  fst (splitexts filename) +:+ snd (splitexts filename) = filename.
Proof.
  unfold splitexts.
  pose proof (splitext_app filename) as Hf.
  destruct (PosixPath.splitext filename) as [bname ext]; simpl in Hf.
  pose proof (splitext_app bname) as Hb.
  destruct (str_in _ _); simpl; [|exact Hf].
  now rewrite str_app_assoc, Hb.
Qed.

Lemma str_in_product_exts (s : string) :
  str_in s product_exts = true <-> s ∈ product_exts.
Proof.
  unfold str_in. rewrite existsb_exists. split.
  - intros (y & Hy & Heq). apply String.eqb_eq in Heq as ->.
    now apply list_elem_of_In.
  - intros Hel. exists s.
    split; [now apply list_elem_of_In | apply String.eqb_refl].
Qed.

(** The extensions of the set are a dot and a word. *)
Lemma product_ext_word (e : string) :
  e ∈ product_exts ->
  exists name, e = String "." name /\ name <> "" /\
    str_mem "." name = false /\ str_mem "/" name = false.
Proof.
  unfold product_exts. intros He.
  repeat (apply elem_of_cons in He as [-> | He];
          [eexists; repeat split; discriminate|]).
  now apply elem_of_nil in He.
Qed.

(** A product name [dir + stem + e + '.' + x] splits after the stem. *)
Lemma splitexts_product_name (dir stem e x : string) :
  str_mem "/" stem = false -> all_dots stem = false ->
  e ∈ product_exts ->
  str_mem "." x = false -> str_mem "/" x = false ->
  splitexts (dir +:+ stem +:+ e +:+ String "." x)
  = (dir +:+ stem, e +:+ String "." x).
Proof.
  intros Hslash Hstem He Hdotx Hslashx.
  destruct (product_ext_word e He) as (name & -> & _ & Hdotn & Hslashn).
  assert (PosixPath.splitext
            (dir +:+ stem +:+ String "." name +:+ String "." x)
          = (dir +:+ stem +:+ String "." name, String "." x)) as Hfirst.
  { rewrite (str_app_assoc stem (String "." name) (String "." x)).
    apply splitext_visible_ext; try assumption.
    - rewrite str_mem_app, Hslash. exact Hslashn.
    - now apply all_dots_app_false. }
  unfold splitexts. rewrite Hfirst.
  rewrite (splitext_visible_ext dir stem name) by assumption.
  cbv zeta. cbn [fst snd].
  now rewrite (proj2 (str_in_product_exts _) He).
Qed.

(** X1. The extension [splitexts] returns is empty or begins with a dot,
    whatever the name. *)
Theorem splitexts_ext_shape (filename : string) :
  snd (splitexts filename) = "" \/
  exists t, snd (splitexts filename) = String "." t.
Proof.
  unfold splitexts.
  pose proof (splitext_ext_shape filename) as Hext.
  destruct (PosixPath.splitext filename) as [bname ext]. simpl in Hext.
  cbv zeta.
  destruct (str_in (snd (PosixPath.splitext bname)) product_exts) eqn:Hin;
    [|exact Hext].
  apply str_in_product_exts, product_ext_word in Hin
    as (name & Hname & _). right. cbn [snd]. rewrite Hname.
  exists (name +:+ ext). apply str_app_cons.
Qed.

Section HillshadeFacts.
Context {pix : Type} {E : External pix}.

(** X2. [create_hillshade] always runs the one [gdaldem hillshade] line,
    whether or not its output already exists, and the output name it
    returns is never the name of its input. *)
Theorem create_hillshade_never_input_name (filename : string) (w : World pix) :
  exists fout,
    fout <> filename /\
    create_hillshade filename w =
      (Return fout,
       after_command ("gdaldem hillshade " +:+ filename +:+ " " +:+ fout) w).
Proof.
  exists (fst (PosixPath.splitext filename) +:+ "_hillshade.tif").
  split; [|reflexivity].
  intros Heq. rewrite <- (splitext_app filename) in Heq at 2.
  apply str_app_inv_head in Heq.
  destruct (splitext_ext_shape filename) as [Hext | [t Hext]];
    rewrite Hext in Heq; discriminate Heq.
Qed.

(** X3. For a product raster [dir + stem + e + '.' + x], with [e] one of
    the product extensions, the hillshade is named
    [dir + stem + e + '_hillshade.tif']: only the last extension is
    replaced, and [splitexts] no longer finds a compound extension in
    that name. *)
Theorem create_hillshade_product_name (dir stem e x : string) (w : World pix) :
  str_mem "/" stem = false -> all_dots stem = false ->
  e ∈ product_exts ->
  str_mem "." x = false -> str_mem "/" x = false ->
  fst (create_hillshade (dir +:+ stem +:+ e +:+ String "." x) w)
    = Return ((dir +:+ stem +:+ e) +:+ "_hillshade.tif") /\
  splitexts ((dir +:+ stem +:+ e) +:+ "_hillshade.tif")
    = ((dir +:+ stem +:+ e) +:+ "_hillshade", ".tif").
Proof.
  intros Hslash Hstem He Hdotx Hslashx.
  destruct (product_ext_word e He) as (name & Hname & _ & Hdotn & Hslashn).
  split.
  - unfold create_hillshade, mbind, M_bind, os_system, mret, M_ret.
    cbn [fst]. do 2 f_equal.
    rewrite (str_app_assoc stem e (String "." x)).
    rewrite splitext_visible_ext; [reflexivity | | | assumption | assumption].
    + rewrite str_mem_app, Hslash, Hname. exact Hslashn.
    + now apply all_dots_app_false.
  - assert (PosixPath.splitext ((dir +:+ stem +:+ e) +:+ "_hillshade.tif")
            = ((dir +:+ stem +:+ e) +:+ "_hillshade", ".tif")) as Hfirst.
    { assert ((dir +:+ stem +:+ e) +:+ "_hillshade.tif"
              = dir +:+ ((stem +:+ e) +:+ "_hillshade") +:+ String "." "tif")
        as -> by (rewrite <- !str_app_assoc; reflexivity).
      assert ((dir +:+ stem +:+ e) +:+ "_hillshade"
              = dir +:+ ((stem +:+ e) +:+ "_hillshade"))
        as -> by (rewrite <- !str_app_assoc; reflexivity).
      apply splitext_visible_ext; try reflexivity.
      - rewrite !str_mem_app, Hslash, Hname. simpl. now rewrite Hslashn.
      - do 2 apply all_dots_app_false. exact Hstem. }
    assert (PosixPath.splitext ((dir +:+ stem +:+ e) +:+ "_hillshade")
            = (dir +:+ stem, String "." (name +:+ "_hillshade"))) as Hsecond.
    { rewrite Hname.
      rewrite <- (str_app_assoc dir), <- (str_app_assoc stem).
      rewrite str_app_cons.
      apply splitext_visible_ext; try assumption.
      - rewrite str_mem_app, Hdotn. reflexivity.
      - rewrite str_mem_app, Hslashn. reflexivity. }
    unfold splitexts. rewrite Hfirst, Hsecond. cbv zeta. cbn [fst snd].
    assert (str_in (String "." (name +:+ "_hillshade")) product_exts = false)
      as ->; [|reflexivity].
    unfold product_exts in He. rewrite Hname in He.
    repeat (apply elem_of_cons in He as [[= ->] | He]; [reflexivity|]).
    now apply elem_of_nil in He.
Qed.

End HillshadeFacts.

Lemma create_hillshade_product_name_witness :
  fst (create_hillshade (E := Sample.tools) "out/dtm_r1.idw.tif" Sample.world)
    = Return "out/dtm_r1.idw_hillshade.tif" /\
  splitexts "out/dtm_r1.idw_hillshade.tif"
    = ("out/dtm_r1.idw_hillshade", ".tif").
Proof.
  apply (create_hillshade_product_name (E := Sample.tools)
           "out/" "dtm_r1" ".idw" "tif" Sample.world); try reflexivity.
  apply list_elem_of_In. vm_compute. tauto.
Defined.

(** X4. The temporary file of the clip never has the name of the output
    itself, and for a product raster [dir + stem + e + '.' + x] it is
    [dir + stem + '_clip' + e + '.' + x], a name with the same compound
    extension. *)
Theorem clip_name_keeps_extension (fout : string) :
  clip_name fout <> fout /\
  forall dir stem e x,
    fout = dir +:+ stem +:+ e +:+ String "." x ->
    str_mem "/" stem = false -> all_dots stem = false ->
    e ∈ product_exts ->
    str_mem "." x = false -> str_mem "/" x = false ->
    clip_name fout = dir +:+ (stem +:+ "_clip") +:+ e +:+ String "." x /\
    splitexts (clip_name fout) = (dir +:+ stem +:+ "_clip", e +:+ String "." x).
Proof.
  split.
  - unfold clip_name. intros Heq.
    apply (f_equal String.length) in Heq.
    rewrite <- (splitexts_app fout) in Heq at 3.
    rewrite !str_length_app in Heq. simpl in Heq. lia.
  - intros dir stem e x -> Hslash Hstem He Hdotx Hslashx.
    assert (clip_name (dir +:+ stem +:+ e +:+ String "." x)
            = dir +:+ (stem +:+ "_clip") +:+ e +:+ String "." x) as Hname.
    { unfold clip_name. rewrite splitexts_product_name by assumption.
      cbn [fst snd]. now rewrite <- !str_app_assoc. }
    split; [exact Hname|]. rewrite Hname.
    apply splitexts_product_name; try assumption.
    + rewrite str_mem_app, Hslash. reflexivity.
    + now apply all_dots_app_false.
Qed.

Lemma clip_name_keeps_extension_witness :
  clip_name "out/dtm.idw.tif" = "out/dtm_clip.idw.tif" /\
  splitexts (clip_name "out/dtm.idw.tif") = ("out/dtm_clip", ".idw.tif").
Proof.
  apply (proj2 (clip_name_keeps_extension "out/dtm.idw.tif")
           "out/" "dtm" ".idw" "tif"); try reflexivity.
  apply list_elem_of_In. vm_compute. tauto.
Defined.

(* ===================================================================== *)
(** ** Classification file names *)
(* ===================================================================== *)

Lemma str_of_Z_inj (a b : Z) : str_of_Z a = str_of_Z b -> a = b.
Proof.
  unfold str_of_Z. intros Heq.
  apply (f_equal NilEmpty.int_of_string) in Heq.
  rewrite !NilEmpty.isi in Heq. injection Heq as Heq.
  apply (f_equal Z.of_int) in Heq. now rewrite !DecimalZ.of_to in Heq.
Qed.

(** A rendered integer holds digits and a sign only. *)
Lemma str_of_Z_chars (c : ascii) (z : Z) :
  c = "c"%char \/ c = "."%char -> str_mem c (str_of_Z z) = false.
Proof.
  intros Hc. unfold str_of_Z.
  assert (forall d, str_mem c (NilEmpty.string_of_uint d) = false) as Hu.
  { induction d; simpl; rewrite ?IHd; destruct Hc as [-> | ->]; reflexivity. }
  destruct (Z.to_int z) as [d|d]; simpl; rewrite Hu;
    destruct Hc as [-> | ->]; reflexivity.
Qed.

(** Two strings cut at the first [c] agree part by part. *)
Lemma str_cut_unique (c : ascii) (s1 s2 t1 t2 : string) :
  str_mem c s1 = false -> str_mem c s2 = false ->
  s1 +:+ String c t1 = s2 +:+ String c t2 -> s1 = s2 /\ t1 = t2.
Proof.
  revert s2. induction s1 as [|a s1 IH]; intros [|b s2]; simpl.
  - intros _ _ [= ->]. auto.
  - intros _ [Hb _]%orb_false_elim. rewrite str_app_cons. intros [= <- _].
    now rewrite Ascii.eqb_refl in Hb.
  - intros [Ha _]%orb_false_elim _. rewrite str_app_cons. intros [= -> _].
    now rewrite Ascii.eqb_refl in Ha.
  - intros [_ H1]%orb_false_elim [_ H2]%orb_false_elim.
    rewrite !str_app_cons. intros [= -> Heq].
    destruct (IH s2 H1 H2 Heq) as [-> ->]. auto.
Qed.

(** X5. With integer parameters the classification suffix determines
    them: two pairs of integers give the same suffix only when they are
    the same pair. *)
Theorem class_suffix_int_injective (a b a' b' : Z) (suffix : string) :
  class_suffix (PyInt a) (PyInt b) suffix
    = class_suffix (PyInt a') (PyInt b') suffix ->
  a = a' /\ b = b'.
Proof.
  unfold class_suffix, py_str. intros Heq.
  apply str_app_inv_head in Heq.
  apply (str_app_inv_head "l2d_s") in Heq.
  change ("c" +:+ ?r) with (String "c" r) in Heq.
  apply str_cut_unique in Heq as [Ha Hb];
    [|apply str_of_Z_chars; now left ..].
  change ".las" with (String "." "las") in Hb.
  apply str_cut_unique in Hb as [Hb _];
    [|apply str_of_Z_chars; now right ..].
  split; now apply str_of_Z_inj.
Qed.

Lemma class_suffix_int_injective_witness : 1 = 1 /\ 3 = 3.
Proof.
  apply (class_suffix_int_injective 1 3 1 3 "site_"). reflexivity.
Defined.

Lemma class_params_Return (feature : option GeoFeature) (slope cellsize : pyval) :
  exists p, class_params feature slope cellsize = Return p.
Proof.
  unfold class_params.
  destruct (negb (is_none slope) && negb (is_none cellsize)); eauto.
  destruct (rbind _ _); eauto.
Qed.

Section NameFacts.
Context {pix : Type} {E : External pix}.
Variable abspath : string -> string.

(** X6. [get_classification_filename] never raises, and the name it
    builds in [outdir] is the very pattern [find_classified_lasfile]
    hands to [glob] for that directory, site and the parameters
    [class_params] returns: the lookup raises when [glob] finds nothing
    under that name and returns what it finds otherwise. *)
Theorem classification_name_is_lookup_pattern (site : option GeoFeature)
    (outdir : string) (slope cellsize : pyval) :
  exists p name,
    class_params site slope cellsize = Return p /\
    get_classification_filename abspath site outdir slope cellsize ""
      = Return name /\
    find_classified_lasfile (abspath outdir) site p =
      match glob name with
      | [] => Raise (Exception "No classified LAS files found")
      | _ :: _ => Return (glob name)
      end.
Proof.
  destruct (class_params_Return site slope cellsize) as [[s c] Hp].
  eexists (s, c), _. split; [exact Hp|].
  unfold get_classification_filename. rewrite Hp. simpl.
  split; [reflexivity|]. unfold find_classified_lasfile.
  now destruct (glob _).
Qed.

(** X7. A feature whose class is "1" and a feature whose class is
    missing or unrecognised get the same classification file name, when
    they have one basename and no override is given: the integer preset
    (1, 3) and the string defaults ('1', '3') render alike. *)
Theorem classification_name_of_unknown_class (f g : GeoFeature)
    (outdir suffix : string) :
  Basename f = Basename g ->
  attributes f !! "class" = Some (PyStr "1") ->
  (forall v, attributes g !! "class" = Some v -> v ∉ class_codes) ->
  get_classification_filename abspath (Some f) outdir PyNone PyNone suffix
  = get_classification_filename abspath (Some g) outdir PyNone PyNone suffix.
Proof.
  intros Hname Hf Hg. unfold get_classification_filename, class_params.
  simpl. rewrite Hf, Hname. simpl.
  destruct (attributes g !! "class") as [v|] eqn:Hv; simpl; [|reflexivity].
  destruct (dict_getitem_params_unknown v (Hg v eq_refl)) as [e ->].
  reflexivity.
Qed.

End NameFacts.

Lemma classification_name_of_unknown_class_witness :
  get_classification_filename (fun d => "/data/" +:+ d)
    (Some {| Basename := "site"; attributes := {[ "class" := PyStr "1" ]} |})
    "las" PyNone PyNone ""
  = get_classification_filename (fun d => "/data/" +:+ d)
    (Some {| Basename := "site"; attributes := {[ "class" := PyStr "9" ]} |})
    "las" PyNone PyNone "".
Proof.
  apply (classification_name_of_unknown_class (fun d => "/data/" +:+ d)).
  - reflexivity.
  - reflexivity.
  - intros v Hv. vm_compute in Hv. injection Hv as <-.
    intros Hin. apply list_elem_of_In in Hin. vm_compute in Hin.
    repeat (destruct Hin as [Hin | Hin]; [discriminate Hin|]). exact Hin.
Defined.

(** X8. [dem_products] raises [KeyError] for every type other than
    'density', 'dsm' and 'dtm' ([TypeError] for an unhashable one), and
    every product it returns is a product extension: a raster named
    [dir + stem + '.' + product + '.' + x] is split by [splitexts] after
    the stem. *)
Theorem dem_products_recognised (demtype : pyval) :
  (demtype ∉ [PyStr "density"; PyStr "dsm"; PyStr "dtm"] ->
   exists e, dem_products demtype = Raise e /\ (e = KeyError \/ e = TypeError)) /\
  (forall ps p, dem_products demtype = Return ps -> p ∈ ps ->
     String "." p ∈ product_exts /\
     forall dir stem x,
       str_mem "/" stem = false -> all_dots stem = false ->
       str_mem "." x = false -> str_mem "/" x = false ->
       splitexts (dir +:+ stem +:+ String "." p +:+ String "." x)
       = (dir +:+ stem, String "." p +:+ String "." x)).
Proof.
  assert (forall ps p, dem_products demtype = Return ps -> p ∈ ps ->
            String "." p ∈ product_exts) as Hrec.
  { unfold dem_products. intros ps p Hps Hp.
    destruct demtype as [|z|s|l]; try discriminate Hps.
    cbn [dict_getitem] in Hps. unfold products in Hps.
    cbn [dict_lookup] in Hps.
    repeat match type of Hps with
           | context [String.eqb ?k s] => destruct (String.eqb k s)
           end;
      try discriminate Hps; injection Hps as <-;
      apply list_elem_of_singleton in Hp as ->;
      apply list_elem_of_In; vm_compute; tauto. }
  split.
  - intros Hno. unfold dem_products.
    destruct demtype as [|z|s|l]; cbn [dict_getitem]; eauto.
    unfold products. cbn [dict_lookup].
    repeat match goal with
           | |- context [String.eqb ?k s] =>
               destruct (String.eqb_spec k s) as [<-|_];
               [exfalso; apply Hno; set_solver|]
           end.
    eauto.
  - intros ps p Hps Hp. split; [now apply (Hrec ps)|].
    intros dir stem x Hslash Hstem Hdotx Hslashx.
    apply splitexts_product_name; try assumption. now apply (Hrec ps).
Qed.

Lemma dem_products_recognised_witness :
  (exists e, dem_products (PyStr "chm") = Raise e /\
             (e = KeyError \/ e = TypeError)) /\
  splitexts ("out/" +:+ "dtm_r1" +:+ String "." "idw" +:+ String "." "tif")
    = ("out/" +:+ "dtm_r1", String "." "idw" +:+ String "." "tif").
Proof.
  split.
  - apply (proj1 (dem_products_recognised (PyStr "chm"))).
    intros Hin. apply list_elem_of_In in Hin. vm_compute in Hin.
    repeat (destruct Hin as [Hin | Hin]; [discriminate Hin|]). exact Hin.
  - apply (proj2 (dem_products_recognised (PyStr "dtm")) ["idw"] "idw");
      try reflexivity.
    apply list_elem_of_singleton. reflexivity.
Defined.

(* ===================================================================== *)
(** ** More on [gap_fill], [create_chm] and [create_vrt] *)
(* ===================================================================== *)

Lemma str_le_trans (a b c : string) : str_le a b -> str_le b c -> str_le a c.
Proof.
  unfold str_le, String.leb. revert b c.
  induction a as [|x a IH]; intros [|y b] [|z c]; simpl;
    try (reflexivity || discriminate).
  unfold Ascii.compare.
  destruct (N.compare_spec (N_of_ascii x) (N_of_ascii y)) as [Hxy|Hxy|Hxy];
    destruct (N.compare_spec (N_of_ascii y) (N_of_ascii z)) as [Hyz|Hyz|Hyz];
    destruct (N.compare_spec (N_of_ascii x) (N_of_ascii z)) as [Hxz|Hxz|Hxz];
    try (reflexivity || discriminate || lia).
  apply IH.
Qed.

Global Instance str_le_transitive : Transitive str_le.
Proof. intros a b c. apply str_le_trans. Qed.

(** [sorted] does not depend on the order of its argument. *)
Lemma sorted_permutation (l k : list string) : l ≡ₚ k -> sorted l = sorted k.
Proof.
  intros Hperm.
  apply (Sorted_unique_strong str_le); try apply sorted_Sorted.
  - intros x y _ _ Hxy Hyx. now apply String.leb_antisym.
  - now rewrite !sorted_perm.
Qed.

Lemma clip_name_ne (fout : string) :
  clip_name fout <> fout /\ fout <> clip_name fout.
Proof.
  assert (clip_name fout <> fout) as Hne.
  { unfold clip_name. intros Heq.
    apply (f_equal String.length) in Heq.
    rewrite <- (splitexts_app fout) in Heq at 3.
    rewrite !str_length_app in Heq. simpl in Heq. lia. }
  split; congruence.
Qed.

Section WorldFacts.
Import Numpy.
Context {pix : Type} {P : Pixel pix} {E : External pix}.

Lemma GeoImages_cons (f : string) (fs : list string) (w : World pix) :
  GeoImages (f :: fs) w =
    match files w !! f with
    | Some r =>
        match GeoImages fs {| files := files w; opened := f :: opened w;
                              commands := commands w |} with
        | (Return imgs, w') => (Return (r :: imgs), w')
        | (Raise e, w') => (Raise e, w')
        end
    | None => (Raise (IOError f), w)
    end.
Proof.
  cbn [GeoImages]. unfold mbind, M_bind, GeoImage.
  destruct (files w !! f); [|reflexivity].
  now destruct (GeoImages fs _) as [[imgs|e] w'].
Qed.

(** Opening images changes neither the files nor the command log. *)
Lemma GeoImages_frame (filenames : list string) : forall (w : World pix),
  files (snd (GeoImages filenames w)) = files w /\
  commands (snd (GeoImages filenames w)) = commands w.
Proof.
  induction filenames as [|f fs IH]; intros w; [now split|].
  rewrite GeoImages_cons.
  destruct (files w !! f) as [r|]; [|now split].
  specialize (IH {| files := files w; opened := f :: opened w;
                    commands := commands w |}).
  destruct (GeoImages fs _) as [[imgs|e] w1]; exact IH.
Qed.

(** Opening stops at the first name that is not a file. *)
Lemma GeoImages_first_missing (pre : list string) (g : string)
    (post : list string) : forall (w : World pix),
  Forall (fun f => is_Some (files w !! f)) pre -> files w !! g = None ->
  GeoImages (pre ++ g :: post) w =
    (Raise (IOError g),
     {| files := files w; opened := (rev pre ++ opened w)%list;
        commands := commands w |}).
Proof.
  induction pre as [|f pre IH]; intros w Hpre Hg.
  - simpl app. rewrite GeoImages_cons, Hg. now destruct w.
  - apply Forall_cons in Hpre as [[r Hf] Hpre].
    change ((f :: pre) ++ g :: post)%list with (f :: (pre ++ g :: post))%list.
    rewrite GeoImages_cons, Hf. rewrite IH by assumption.
    simpl. now rewrite <- app_assoc.
Qed.

Lemma first_missing (l : list string) (w : World pix) :
  (exists f, f ∈ l /\ files w !! f = None) ->
  exists pre g post,
    l = (pre ++ g :: post)%list /\
    Forall (fun f => is_Some (files w !! f)) pre /\ files w !! g = None.
Proof.
  induction l as [|x l IH]; intros (f & Hf & Hnone).
  - now apply elem_of_nil in Hf.
  - destruct (files w !! x) as [r|] eqn:Hx.
    + destruct IH as (pre & g & post & -> & Hpre & Hg).
      { apply elem_of_cons in Hf as [-> | Hf]; [congruence | eauto]. }
      exists (x :: pre), g, post. split; [reflexivity|].
      split; [constructor; eauto | assumption].
    + exists [], x, l. auto.
Qed.

Lemma gap_fill_unfold (filenames : list string) (fout : string)
    (site : option GeoFeature) (interpolation : string) (w : World pix) :
  filenames <> [] ->
  gap_fill filenames fout site interpolation w =
    match GeoImages (sorted filenames) w with
    | (Return imgs, w1) =>
        match gap_fill_image imgs interpolation with
        | Return imgout =>
            let w2 := {| files := <[fout := imgout]> (files w1);
                         opened := opened w1; commands := commands w1 |} in
            match site with
            | Some s =>
                match align_and_clip fout s w2 with
                | (Return _, w3) => (Return fout, w3)
                | (Raise e, w3) => (Raise e, w3)
                end
            | None => (Return fout, w2)
            end
        | Raise e => (Raise e, w1)
        end
    | (Raise e, w1) => (Raise e, w1)
    end.
Proof.
  intros Hne. unfold gap_fill. destruct filenames as [|f fs]; [congruence|].
  cbn [length Nat.eqb]. unfold mbind at 1, M_bind at 1.
  destruct (GeoImages _ w) as [[imgs|e] w1]; [|reflexivity].
  unfold mbind, M_bind, lift, Write.
  destruct (gap_fill_image imgs interpolation); [|reflexivity].
  destruct site; [|reflexivity].
  now destruct (align_and_clip _ _ _) as [[[]|] ?].
Qed.

(** X9. A name of the list that is not a file makes [gap_fill] raise
    for the first such name in sorted order, after it has opened the
    names before it; no file is written or changed and no command run,
    with or without a site. *)
Theorem gap_fill_missing_input (filenames : list string)
    (fout : string) (site : option GeoFeature) (interpolation : string)
    (w : World pix) :
  (exists f, f ∈ filenames /\ files w !! f = None) ->
  exists pre g post,
    sorted filenames = (pre ++ g :: post)%list /\
    Forall (fun f => is_Some (files w !! f)) pre /\
    files w !! g = None /\ g ∈ filenames /\
    gap_fill filenames fout site interpolation w =
      (Raise (IOError g),
       {| files := files w; opened := (rev pre ++ opened w)%list;
          commands := commands w |}).
Proof.
  intros (f & Hf & Hnone).
  destruct (first_missing (sorted filenames) w) as (pre & g & post & Hs & Hpre & Hg).
  { exists f. split; [|assumption]. now rewrite sorted_perm. }
  exists pre, g, post. split; [assumption|]. split; [assumption|].
  split; [assumption|]. split.
  - rewrite <- (sorted_perm filenames), Hs. apply elem_of_app. right. now left.
  - rewrite gap_fill_unfold by (intros ->; now apply elem_of_nil in Hf).
    rewrite Hs. now rewrite GeoImages_first_missing.
Qed.

(** X10. Without a site [gap_fill] writes all or nothing: a run that
    returns has written the file [fout] and nothing else, a run that
    raises has left every file as it was; no command is run either
    way. *)
Theorem gap_fill_all_or_nothing (filenames : list string)
    (fout interpolation : string) (w : World pix) :
  commands (snd (gap_fill filenames fout None interpolation w)) = commands w /\
  match fst (gap_fill filenames fout None interpolation w) with
  | Return ret =>
      ret = fout /\
      exists imgout,
        files (snd (gap_fill filenames fout None interpolation w))
        = <[fout := imgout]> (files w)
  | Raise _ =>
      files (snd (gap_fill filenames fout None interpolation w)) = files w
  end.
Proof.
  destruct filenames as [|f fs]; [now split|].
  rewrite gap_fill_unfold by discriminate.
  destruct (GeoImages_frame (sorted (f :: fs)) w) as [Hfiles Hcmds].
  destruct (GeoImages _ w) as [[imgs|e] w1]; simpl in *; [|now split].
  destruct (gap_fill_image imgs interpolation) as [imgout|e]; simpl;
    [|now split].
  split; [assumption|]. split; [reflexivity|]. exists imgout. now rewrite Hfiles.
Qed.

(** X11. [gap_fill] does not depend on the order in which the names are
    given: two lists that are permutations of one another give the same
    outcome and the same world. *)
Theorem gap_fill_permutation (filenames filenames' : list string)
    (fout : string) (site : option GeoFeature) (interpolation : string)
    (w : World pix) :
  filenames ≡ₚ filenames' ->
  gap_fill filenames fout site interpolation w
  = gap_fill filenames' fout site interpolation w.
Proof.
  intros Hperm. unfold gap_fill.
  now rewrite (Permutation_length Hperm), (sorted_permutation _ _ Hperm).
Qed.

Lemma getitem_out_of_range {A} (a : ndarray A) (locs : list (nat * nat)) :
  (exists ij, ij ∈ locs /\ cell a (fst ij) (snd ij) = None) ->
  getitem a locs = Raise IndexError.
Proof.
  induction locs as [|ij locs IH]; intros (kl & Hel & Hnone).
  - now apply elem_of_nil in Hel.
  - simpl. destruct (cell a (fst ij) (snd ij)) as [v|] eqn:Hv; [|reflexivity].
    rewrite IH; [reflexivity|].
    apply elem_of_cons in Hel as [-> | Hel]; [congruence | eauto].
Qed.

(** X12. Unlike [create_chm], [gap_fill] does not crop: when the first
    raster has a nodata cell that lies outside the second raster, the
    run raises [IndexError] and no file is written. *)
Theorem gap_fill_smaller_raster (filenames : list string)
    (fout : string) (site : option GeoFeature) (interpolation : string)
    (w : World pix) (img0 img1 : raster pix) (rest : list (raster pix))
    (i j : nat) (x : pix) :
  filenames <> [] ->
  Forall2 (fun f r => files w !! f = Some r) (sorted filenames)
    (img0 :: img1 :: rest) ->
  cell (band img0) i j = Some x -> peqb x (NoDataValue img0) = true ->
  cell (band img1) i j = None ->
  gap_fill filenames fout site interpolation w =
    (Raise IndexError,
     {| files := files w;
        opened := (rev (sorted filenames) ++ opened w)%list;
        commands := commands w |}).
Proof.
  intros Hne Hall Hx Hbad Hout.
  rewrite gap_fill_unfold by assumption.
  rewrite (GeoImages_run _ _ _ Hall).
  assert (gap_fill_image (img0 :: img1 :: rest) interpolation
          = Raise IndexError) as ->; [|reflexivity].
  simpl. rewrite getitem_out_of_range; [reflexivity|].
  exists (i, j). split; [|exact Hout].
  apply elem_of_badlocs. eauto.
Qed.

(** X13. With a site, once the gap-filled raster is written and the
    cookie cutter has answered, the file [fout] holds the clipped raster
    and the temporary clip file is gone; a file that had the name of the
    temporary file before the run is gone as well.  Every other file is
    as it was. *)
Theorem gap_fill_clip_replaces (filenames : list string)
    (fout : string) (site : GeoFeature) (interpolation : string)
    (w : World pix) (imgs : list (raster pix)) (imgout clipped : raster pix) :
  filenames <> [] ->
  Forall2 (fun f r => files w !! f = Some r) (sorted filenames) imgs ->
  gap_fill_image imgs interpolation = Return imgout ->
  CookieCutter imgout site = Return clipped ->
  gap_fill filenames fout (Some site) interpolation w =
    (Return fout,
     {| files := <[fout := clipped]> (delete (clip_name fout) (files w));
        opened := (fout :: rev (sorted filenames) ++ opened w)%list;
        commands := commands w |}).
Proof.
  intros Hne Hall Himg Hclip.
  destruct (clip_name_ne fout) as [Hne1 Hne2].
  rewrite gap_fill_unfold by assumption.
  rewrite (GeoImages_run _ _ _ Hall), Himg. cbv zeta. cbn [files opened commands].
  unfold align_and_clip. fold (clip_name fout).
  unfold mbind, M_bind, GeoImage, lift, Write, os_path_exists, os_remove,
    os_rename. cbn [files opened commands].
  rewrite lookup_insert_eq, Hclip. cbn [files opened commands].
  rewrite lookup_insert_ne, lookup_insert_eq by assumption.
  rewrite bool_decide_eq_true_2 by eauto. cbn [files opened commands].
  rewrite lookup_insert_ne, lookup_insert_eq by assumption.
  cbn [files opened commands].
  rewrite lookup_delete_ne, lookup_insert_eq by assumption.
  do 2 f_equal. apply map_eq. intros k.
  destruct (decide (k = fout)) as [->|Hk1].
  - now rewrite !lookup_insert_eq.
  - rewrite !(lookup_insert_ne _ fout) by congruence.
    destruct (decide (k = clip_name fout)) as [->|Hk2].
    + now rewrite !lookup_delete_eq.
    + rewrite !(lookup_delete_ne _ (clip_name fout)) by congruence.
      rewrite lookup_delete_ne, lookup_insert_ne by congruence.
      now rewrite lookup_insert_ne by congruence.
Qed.

(** X14. When the cookie cutter fails, its exception leaves [gap_fill]
    and the file [fout] keeps the raster that was not clipped. *)
Theorem gap_fill_clip_failure (filenames : list string)
    (fout : string) (site : GeoFeature) (interpolation : string)
    (w : World pix) (imgs : list (raster pix)) (imgout : raster pix)
    (e : exn) :
  filenames <> [] ->
  Forall2 (fun f r => files w !! f = Some r) (sorted filenames) imgs ->
  gap_fill_image imgs interpolation = Return imgout ->
  CookieCutter imgout site = Raise e ->
  gap_fill filenames fout (Some site) interpolation w =
    (Raise e,
     {| files := <[fout := imgout]> (files w);
        opened := (fout :: rev (sorted filenames) ++ opened w)%list;
        commands := commands w |}).
Proof.
  intros Hne Hall Himg Hclip.
  rewrite gap_fill_unfold by assumption.
  rewrite (GeoImages_run _ _ _ Hall), Himg. cbv zeta. cbn [files opened commands].
  unfold align_and_clip, mbind, M_bind, GeoImage, lift.
  cbn [files opened commands].
  now rewrite lookup_insert_eq, Hclip.
Qed.

End WorldFacts.

Lemma gap_fill_missing_input_witness :
  exists pre g post,
    sorted ["dtm_r9.idw.tif"; "dtm_r1.idw.tif"] = (pre ++ g :: post)%list /\
    Forall (fun f => is_Some (files Sample.world !! f)) pre /\
    files Sample.world !! g = None /\
    g ∈ ["dtm_r9.idw.tif"; "dtm_r1.idw.tif"] /\
    gap_fill (P := Sample.Z_pixel) (E := Sample.tools)
      ["dtm_r9.idw.tif"; "dtm_r1.idw.tif"] "dtm.tif" None "nearest"
      Sample.world
    = (Raise (IOError g),
       {| files := files Sample.world;
          opened := (rev pre ++ opened Sample.world)%list;
          commands := commands Sample.world |}).
Proof.
  apply (gap_fill_missing_input (P := Sample.Z_pixel) (E := Sample.tools)
           ["dtm_r9.idw.tif"; "dtm_r1.idw.tif"] "dtm.tif" None "nearest"
           Sample.world).
  exists "dtm_r9.idw.tif". split; [now left | reflexivity].
Defined.

Lemma gap_fill_permutation_witness :
  gap_fill (P := Sample.Z_pixel) (E := Sample.tools)
    ["dtm_r2.idw.tif"; "dtm_r1.idw.tif"] "dtm.tif" None "nearest" Sample.world
  = gap_fill (P := Sample.Z_pixel) (E := Sample.tools)
    ["dtm_r1.idw.tif"; "dtm_r2.idw.tif"] "dtm.tif" None "nearest" Sample.world.
Proof.
  apply (gap_fill_permutation (P := Sample.Z_pixel) (E := Sample.tools)).
  apply Permutation_swap.
Defined.

Lemma gap_fill_smaller_raster_witness :
  gap_fill (P := Sample.Z_pixel) (E := Sample.tools)
    ["dtm_r2.idw.tif"; "dtm_r1.idw.tif"] "dtm.tif" None "nearest"
    SampleClip.world
  = (Raise IndexError,
     {| files := files SampleClip.world;
        opened := ["dtm_r2.idw.tif"; "dtm_r1.idw.tif"];
        commands := [] |}).
Proof.
  apply (gap_fill_smaller_raster (P := Sample.Z_pixel) (E := Sample.tools)
           ["dtm_r2.idw.tif"; "dtm_r1.idw.tif"] "dtm.tif" None "nearest"
           SampleClip.world Sample.dtm_r1 SampleClip.dtm_small [] 1 0 Sample.nd).
  - discriminate.
  - repeat constructor.
  - reflexivity.
  - reflexivity.
  - reflexivity.
Defined.

Lemma gap_fill_clip_replaces_witness :
  gap_fill (P := Sample.Z_pixel) (E := SampleClip.clipping)
    ["dtm_r1.idw.tif"] "dtm.tif" (Some Sample.site) "nearest" SampleClip.world
  = (Return "dtm.tif",
     {| files := {[ "dtm_r0.idw.tif" := SampleClip.dtm_small;
                    "dtm_r1.idw.tif" := Sample.dtm_r1;
                    "dtm_r2.idw.tif" := SampleClip.dtm_small;
                    "dtm.tif" := {| NoDataValue := Sample.nd;
                                    band := Sample.array 1 2 [[10; 10]] |} ]};
        opened := ["dtm.tif"; "dtm_r1.idw.tif"];
        commands := [] |}).
Proof.
  rewrite (gap_fill_clip_replaces (P := Sample.Z_pixel)
             (E := SampleClip.clipping)
             ["dtm_r1.idw.tif"] "dtm.tif" Sample.site "nearest"
             SampleClip.world [Sample.dtm_r1]
             {| NoDataValue := Sample.nd;
                band := Sample.array 2 3 [[10; 10; 12]; [10; 15; 15]] |}
             {| NoDataValue := Sample.nd;
                band := Sample.array 1 2 [[10; 10]] |}).
  - reflexivity.
  - discriminate.
  - repeat constructor.
  - reflexivity.
  - reflexivity.
Defined.

Lemma gap_fill_clip_failure_witness :
  gap_fill (P := Sample.Z_pixel) (E := SampleClip.failing)
    ["dtm_r1.idw.tif"] "dtm.tif" (Some Sample.site) "nearest" SampleClip.world
  = (Raise (Exception "site outside raster"),
     {| files := <["dtm.tif" :=
                     {| NoDataValue := Sample.nd;
                        band := Sample.array 2 3 [[10; 10; 12]; [10; 15; 15]] |}]>
                   (files SampleClip.world);
        opened := ["dtm.tif"; "dtm_r1.idw.tif"];
        commands := [] |}).
Proof.
  apply (gap_fill_clip_failure (P := Sample.Z_pixel) (E := SampleClip.failing)
           ["dtm_r1.idw.tif"] "dtm.tif" Sample.site "nearest"
           SampleClip.world [Sample.dtm_r1]).
  - discriminate.
  - repeat constructor.
  - reflexivity.
  - reflexivity.
Defined.

Section ChmVrtFacts.
Import Numpy.
Context {pix : Type} {P : Pixel pix} {E : External pix} {G : Gippy pix}.

(** X15. On well-formed rasters [create_chm] fails only for a missing
    input, and then before any output exists: a missing DTM raises with
    the world untouched, a missing DSM raises with no file changed, and
    with both inputs present the run returns, whatever their extents,
    having written the file [chm] and nothing else.  No command is
    run. *)
Theorem create_chm_all_or_nothing (dtm dsm chm : string) (w : World pix) :
  (forall f r, files w !! f = Some r -> wf (band r)) ->
  (files w !! dtm = None ->
   create_chm dtm dsm chm w = (Raise (IOError dtm), w)) /\
  (is_Some (files w !! dtm) -> files w !! dsm = None ->
   create_chm dtm dsm chm w =
     (Raise (IOError dsm),
      {| files := files w; opened := dtm :: opened w;
         commands := commands w |})) /\
  (is_Some (files w !! dtm) -> is_Some (files w !! dsm) ->
   exists out,
     create_chm dtm dsm chm w =
       (Return chm,
        {| files := <[chm := out]> (files w);
           opened := dsm :: dtm :: opened w;
           commands := commands w |})).
Proof.
  intros Hwf. split; [|split].
  - intros Hdtm. unfold create_chm, mbind, M_bind, GeoImage.
    now rewrite Hdtm.
  - intros [dtm_img Hdtm] Hdsm. unfold create_chm, mbind, M_bind, GeoImage.
    rewrite Hdtm. cbn [files opened commands]. now rewrite Hdsm.
  - intros [dtm_img Hdtm] [dsm_img Hdsm].
    destruct (chm_array_Return dtm_img dsm_img (Hwf _ _ Hdtm) (Hwf _ _ Hdsm))
      as (arr & Harr & _).
    eexists. apply (create_chm_run _ _ _ _ dtm_img dsm_img);
      [exact Hdtm | exact Hdsm | exact Harr].
Qed.

(** X16. When [create_vrt] has to build the mosaic (target absent or
    [overwrite] set), an empty site raises [IndexError] and a failure of
    [get_vector_bounds] is passed on, in both cases before any command
    is run; with bounds the single command carries them in one [-te]
    argument placed before the output name. *)
Theorem create_vrt_site_paths (filenames : list string) (fout : string)
    (site : list (option GeoFeature)) (overwrite verbose : bool)
    (w : World pix) :
  files w !! fout = None \/ overwrite = true ->
  (site = [] ->
   create_vrt filenames fout site overwrite verbose w = (Raise IndexError, w)) /\
  (forall f rest e, site = Some f :: rest ->
     get_vector_bounds site = Raise e ->
     create_vrt filenames fout site overwrite verbose w = (Raise e, w)) /\
  (forall f rest bounds, site = Some f :: rest ->
     get_vector_bounds site = Return bounds ->
     create_vrt filenames fout site overwrite verbose w =
       (Return fout,
        after_command
          (gdalbuildvrt_cmd verbose ["-te " +:+ str_join " " bounds]
             fout filenames) w)).
Proof.
  intros Hbuild. rewrite (create_vrt_build _ _ _ _ _ _ Hbuild).
  split; [|split].
  - now intros ->.
  - intros f rest e -> Hb. now rewrite Hb.
  - intros f rest bounds -> Hb. now rewrite Hb.
Qed.

End ChmVrtFacts.

Lemma wf_sample_world (f : string) (r : raster Z) :
  files Sample.world !! f = Some r -> Numpy.wf (band r).
Proof.
  unfold Sample.world. cbn [files]. intros Hf.
  repeat (apply lookup_insert_Some in Hf as [[_ <-] | [_ Hf]];
          [split; [reflexivity | repeat constructor]|]).
  apply lookup_singleton_Some in Hf as [_ <-].
  split; [reflexivity | repeat constructor].
Qed.

Lemma create_chm_all_or_nothing_witness :
  create_chm (P := Sample.Z_pixel) "missing.tif" "dsm_r1.idw.tif" "chm.tif"
    Sample.world
    = (Raise (IOError "missing.tif"), Sample.world) /\
  create_chm (P := Sample.Z_pixel) "dtm_r1.idw.tif" "missing.tif" "chm.tif"
    Sample.world
    = (Raise (IOError "missing.tif"),
       {| files := files Sample.world; opened := ["dtm_r1.idw.tif"];
          commands := [] |}) /\
  exists out,
    create_chm (P := Sample.Z_pixel) "dtm_r1.idw.tif" "dsm_big.idw.tif"
      "chm.tif" Sample.world
    = (Return "chm.tif",
       {| files := <["chm.tif" := out]> (files Sample.world);
          opened := ["dsm_big.idw.tif"; "dtm_r1.idw.tif"];
          commands := [] |}).
Proof.
  split; [|split].
  - apply (proj1 (create_chm_all_or_nothing (P := Sample.Z_pixel)
                    "missing.tif" "dsm_r1.idw.tif" "chm.tif" Sample.world
                    wf_sample_world)).
    reflexivity.
  - apply (proj1 (proj2 (create_chm_all_or_nothing (P := Sample.Z_pixel)
                    "dtm_r1.idw.tif" "missing.tif" "chm.tif" Sample.world
                    wf_sample_world))).
    + vm_compute. eauto.
    + reflexivity.
  - apply (proj2 (proj2 (create_chm_all_or_nothing (P := Sample.Z_pixel)
                    "dtm_r1.idw.tif" "dsm_big.idw.tif" "chm.tif" Sample.world
                    wf_sample_world))).
    + vm_compute. eauto.
    + vm_compute. eauto.
Defined.

Lemma create_vrt_site_paths_witness :
  create_vrt (E := Sample.tools) ["a.tif"; "b.tif"] "mosaic.vrt" []
    false false Sample.world = (Raise IndexError, Sample.world) /\
  create_vrt (E := SampleClip.failing) ["a.tif"; "b.tif"] "mosaic.vrt"
    [Some Sample.site] false false Sample.world
    = (Raise ValueError, Sample.world) /\
  create_vrt (E := Sample.tools) ["a.tif"; "b.tif"] "mosaic.vrt"
    [Some Sample.site] false true Sample.world
    = (Return "mosaic.vrt",
       after_command (E := Sample.tools)
         "gdalbuildvrt -te 0 0 30 20 mosaic.vrt a.tif b.tif" Sample.world).
Proof.
  split; [|split].
  - apply (proj1 (create_vrt_site_paths (E := Sample.tools)
                    ["a.tif"; "b.tif"] "mosaic.vrt" [] false false
                    Sample.world (or_introl eq_refl))).
    reflexivity.
  - apply (proj1 (proj2 (create_vrt_site_paths (E := SampleClip.failing)
                    ["a.tif"; "b.tif"] "mosaic.vrt" [Some Sample.site]
                    false false Sample.world (or_introl eq_refl)))
             Sample.site []); reflexivity.
  - apply (proj2 (proj2 (create_vrt_site_paths (E := Sample.tools)
                    ["a.tif"; "b.tif"] "mosaic.vrt" [Some Sample.site]
                    false true Sample.world (or_introl eq_refl)))
             Sample.site [] ["0"; "0"; "30"; "20"]); reflexivity.
Defined.

Section ExtentFacts.
Import Numpy.
Context {pix : Type} {P : Pixel pix} {E : External pix}.

Lemma fill_from_shape (nodata : pix) (imgs : list (raster pix)) :
  forall arr merged,
    fill_from nodata arr imgs = Return merged -> shape merged = shape arr.
Proof.
  induction imgs as [|img imgs IH]; intros arr merged; simpl.
  - now intros [= <-].
  - destruct (getitem (band img) (badlocs nodata arr)) as [vals|];
      [|discriminate]. simpl.
    destruct (setitem arr (badlocs nodata arr) vals) as [arr'|] eqn:Hset;
      [|discriminate]. simpl.
    intros Hrec. apply setitem_frame in Hset as [Hs _].
    rewrite (IH _ _ Hrec). exact Hs.
Qed.

(** X17. Whenever [gap_fill] returns, the raster it has written has the
    nodata value and the extent of the first raster in sorted order,
    whatever the extents of the others and whatever [griddata]
    returned. *)
Theorem gap_fill_output_extent (filenames : list string)
    (fout interpolation : string) (w w' : World pix) (ret : string)
    (img0 : raster pix) (rest : list (raster pix)) :
  Forall2 (fun f r => files w !! f = Some r) (sorted filenames) (img0 :: rest) ->
  gap_fill filenames fout None interpolation w = (Return ret, w') ->
  exists out,
    files w' !! fout = Some out /\
    NoDataValue out = NoDataValue img0 /\
    shape (band out) = shape (band img0).
Proof.
  intros Hall Hrun.
  assert (filenames <> []) as Hne.
  { intros ->. inversion Hall. }
  rewrite gap_fill_unfold, (GeoImages_run _ _ _ Hall) in Hrun by assumption.
  destruct (gap_fill_image (img0 :: rest) interpolation) as [imgout|e] eqn:Himg;
    [|discriminate Hrun].
  injection Hrun as _ <-. exists imgout. cbn [files].
  split; [apply lookup_insert_eq|].
  simpl in Himg.
  destruct (fill_from _ _ _) as [merged|] eqn:Hm; [|discriminate Himg].
  simpl in Himg.
  destruct (interpolate _ _ _) as [arr|] eqn:Hint; [|discriminate Himg].
  injection Himg as <-. simpl. split; [reflexivity|].
  apply interpolate_frame in Hint as [Hs _].
  rewrite Hs. now apply (fill_from_shape _ _ _ _ Hm).
Qed.

End ExtentFacts.

Lemma gap_fill_output_extent_witness :
  exists out,
    files (snd (gap_fill (P := Sample.Z_pixel) (E := Sample.tools)
                  ["dtm_r1.idw.tif"; "dtm_r0.idw.tif"] "dtm.tif" None
                  "nearest" SampleClip.world)) !! "dtm.tif" = Some out /\
    NoDataValue out = Sample.nd /\
    Numpy.shape (band out) = (1%nat, 2%nat).
Proof.
  apply (gap_fill_output_extent (P := Sample.Z_pixel) (E := Sample.tools)
           ["dtm_r1.idw.tif"; "dtm_r0.idw.tif"] "dtm.tif" "nearest"
           SampleClip.world
           (snd (gap_fill (P := Sample.Z_pixel) (E := Sample.tools)
                   ["dtm_r1.idw.tif"; "dtm_r0.idw.tif"] "dtm.tif" None
                   "nearest" SampleClip.world))
           "dtm.tif" SampleClip.dtm_small [Sample.dtm_r1]).
  - repeat constructor.
  - reflexivity.
Defined.
